(** * hex_tool: Intel HEX window extraction and CRC-32

    A shallow embedding of [Docs/Hex_Tool/hex_tool.cpp]: the line reader
    and record interpreter of [main], the construction of the binary
    image for the window [startAddress, startAddress + bankSize), and
    [crc32].  Unsigned machine integers are [Z] values with the
    wrap-around written out; [std::map<uint32_t, uint8_t>] is a
    [gmap Z Z]; [std::vector<uint8_t>] is a [list Z]. *)

From Stdlib Require Import ZArith String Ascii List Lia Bool.
From stdpp Require Import base option list gmap strings.
From stdpp Require Import pretty.

Local Open Scope Z_scope.

(** ** Fixed-width unsigned integers *)

Module Word.

Definition uint8 (z : Z) : Z := z mod 2 ^ 8.
Definition uint16 (z : Z) : Z := z mod 2 ^ 16.
Definition uint32 (z : Z) : Z := z mod 2 ^ 32.

Definition INT_MIN : Z := - 2 ^ 31.
Definition INT_MAX : Z := 2 ^ 31 - 1.

End Word.
Export Word.

(** ** The two library calls the record reader is built from *)

Module Cxx.

(** The exceptions [std::string::substr] and [std::stoi] throw; both
    derive from [std::exception]. *)
Inductive exn : Type :=
| invalid_argument
| out_of_range.

Inductive result (A : Type) : Type :=
| Ok (a : A)
| Throw (e : exn).
Arguments Ok {A} a.
Arguments Throw {A} e.

Definition bind {A B : Type} (r : result A) (k : A -> result B) : result B :=
  match r with
  | Ok a => k a
  | Throw e => Throw e
  end.

Definition is_ok {A : Type} (r : result A) : bool :=
  match r with Ok _ => true | Throw _ => false end.

(** [s.substr(pos, n)]: throws when [pos > s.size()], otherwise the
    at most [n] characters from [pos] on. *)
Definition substr (s : string) (pos n : nat) : result string :=
  if (String.length s <? pos)%nat then Throw out_of_range
  else Ok (String.substring pos n s).

Definition code (c : ascii) : Z := Z.of_N (N_of_ascii c).

(** [isspace] in the C locale. *)
Definition isspace (c : ascii) : bool :=
  (code c =? 32) || ((9 <=? code c) && (code c <=? 13)).

Definition hex_digit (c : ascii) : option Z :=
  let n := code c in
  if (48 <=? n) && (n <=? 57) then Some (n - 48)
  else if (65 <=? n) && (n <=? 70) then Some (n - 55)
  else if (97 <=? n) && (n <=? 102) then Some (n - 87)
  else None.

Fixpoint skip_space (s : string) : string :=
  match s with
  | String c r => if isspace c then skip_space r else s
  | EmptyString => s
  end.

(** An optional sign, [-] or [+]: [true] for a minus. *)
Definition take_sign (s : string) : bool * string :=
  match s with
  | String c r =>
      if code c =? 45 then (true, r)
      else if code c =? 43 then (false, r)
      else (false, s)
  | EmptyString => (false, s)
  end.

(** An optional [0x] or [0X]; it belongs to the number only when a
    hex digit follows, otherwise the [0] alone is the number. *)
Definition skip_0x (s : string) : string :=
  match s with
  | String z (String x (String d r)) =>
      if (code z =? 48) && ((code x =? 120) || (code x =? 88))
         && bool_decide (is_Some (hex_digit d))
      then String d r else s
  | _ => s
  end.

(** The longest run of hex digits at the head of [s]: its value and
    the number of digits consumed. *)
Fixpoint digits (acc : Z) (n : nat) (s : string) : Z * nat :=
  match s with
  | String c r =>
      match hex_digit c with
      | Some d => digits (acc * 16 + d) (S n) r
      | None => (acc, n)
      end
  | EmptyString => (acc, n)
  end.

(** [std::stoi(s, nullptr, 16)]: leading whitespace, a sign, a [0x]
    prefix, then as many hex digits as there are; what follows the
    digits is ignored.  No digit at all throws [invalid_argument]; a
    value that does not fit [int] throws [out_of_range]. *)
Definition stoi16 (s : string) : result Z :=
  let '(neg, s1) := take_sign (skip_space s) in
  let '(v, n) := digits 0 0 (skip_0x s1) in
  if (n =? 0)%nat then Throw invalid_argument
  else
    let r := if neg : bool then - v else v in
    if (r <? INT_MIN) || (INT_MAX <? r) then Throw out_of_range
    else Ok r.

(** Whether [s] starts with a hex digit, and whether it does after the
    blanks and the sign [stoi16] skips. *)
Definition head_is_digit (s : string) : bool :=
  match s with
  | String c _ => bool_decide (is_Some (hex_digit c))
  | EmptyString => false
  end.

Definition leading_digit (s : string) : bool :=
  head_is_digit (snd (take_sign (skip_space s))).

End Cxx.
Export Cxx.

(** ** crc32 *)

Definition POLYNOMIAL : Z := 0xEDB88320.

(** The inner loop [for (int j = 0; j < 8; j++)], [j] iterations left. *)
Fixpoint crc_shift (j : nat) (crc : Z) : Z :=
  match j with
  | O => crc
  | S j' =>
      crc_shift j'
        (if negb (Z.land crc 1 =? 0)
         then Z.lxor (Z.shiftr crc 1) POLYNOMIAL
         else Z.shiftr crc 1)
  end.

(** One round of the outer loop: [crc ^= byte] and the eight shifts. *)
Definition crc_update (crc byte : Z) : Z :=
  crc_shift 8 (Z.lxor crc byte).

Definition crc32 (data : list Z) : Z :=
  Z.lxor (fold_left crc_update data 0xFFFFFFFF) 0xFFFFFFFF.

(** The checksum as the specification words it, in arithmetic: the
    register starts at [0xFFFFFFFF]; a byte is XORed into the low eight
    bits, the upper bits stay; eight times, an odd register is halved
    and XORed with the polynomial, an even one is halved; the final
    register is XORed with [0xFFFFFFFF]. *)
Module Reference.

Definition xor_low8 (reg byte : Z) : Z :=
  (reg / 256) * 256 + Z.lxor (reg mod 256) byte.

Definition shift_once (reg : Z) : Z :=
  if Z.odd reg then Z.lxor (reg / 2) 0xEDB88320 else reg / 2.

Definition per_byte (reg byte : Z) : Z :=
  Nat.iter 8 shift_once (xor_low8 reg byte).

Definition crc32_iso_hdlc (data : list Z) : Z :=
  Z.lxor (fold_left per_byte data 0xFFFFFFFF) 0xFFFFFFFF.

End Reference.

(** ** The record reader of [main] *)

Record state : Type := State {
  memoryMap : gmap Z Z;
  extendedLinearAddress : Z
}.

Definition initial : state :=
  {| memoryMap := ∅; extendedLinearAddress := 0 |}.

(** What a run leaves behind, in order: every executed assignment
    [memoryMap[byteAddress] = byteValue] (recorded for the statements
    below, the program prints nothing for it) and the lines written to
    [std::cerr] and [std::cout]. *)
Inductive event : Type :=
| Store (address value : Z)
| Warning (line : string) (reason : exn)
| ParsedOk
| ErrOpenInput
| ErrNoData
| ErrCreateOutput
| Created (size : nat)
| Hash (crc : Z).

(** How the body of the [while] loop is left for one line. *)
Inductive signal : Type :=
| Next
| Break
| Caught (e : exn).

(** [std::stoi(line.substr(pos, n), nullptr, 16)]. *)
Definition hex_field (line : string) (pos n : nat) : result Z :=
  bind (substr line pos n) stoi16.

(** The three fields read at the head of the [try] block, converted to
    [uint8_t], [uint16_t] and [uint8_t]. *)
Definition header (line : string) : result (Z * Z * Z) :=
  bind (hex_field line 1 2) (fun byteCount =>
  bind (hex_field line 3 4) (fun addressOffset =>
  bind (hex_field line 7 2) (fun recordType =>
  Ok (uint8 byteCount, uint16 addressOffset, uint8 recordType)))).

Section Reader.

Variables startAddress endAddress : Z.

(** [byteAddress >= startAddress && byteAddress < endAddress]. *)
Definition in_range (a : Z) : bool :=
  (startAddress <=? a) && (a <? endAddress).

(** The [for] loop of a Data record from index [i] on, [n] iterations
    left.  A conversion that throws leaves the loop with the map as it
    is at that point. *)
Fixpoint data_from (line : string) (currentAddress : Z) (n i : nat)
    (m : gmap Z Z) : gmap Z Z * list event * option exn :=
  match n with
  | O => (m, [], None)
  | S n' =>
      let byteAddress := uint32 (currentAddress + Z.of_nat i) in
      if in_range byteAddress then
        match hex_field line (9 + i * 2) 2 with
        | Throw e => (m, [], Some e)
        | Ok v =>
            let byteValue := uint8 v in
            let '(m', log, r) :=
              data_from line currentAddress n' (S i)
                        (<[byteAddress := byteValue]> m) in
            (m', Store byteAddress byteValue :: log, r)
        end
      else data_from line currentAddress n' (S i) m
  end.

Definition data_loop (line : string) (currentAddress byteCount : Z)
    (m : gmap Z Z) : gmap Z Z * list event * option exn :=
  data_from line currentAddress (Z.to_nat byteCount) 0 m.

(** The [try] block for one candidate line. *)
Definition process_line (st : state) (line : string)
    : state * list event * signal :=
  match header line with
  | Throw e => (st, [], Caught e)
  | Ok (byteCount, addressOffset, recordType) =>
      if recordType =? 4 then
        match hex_field line 9 4 with
        | Throw e => (st, [], Caught e)
        | Ok u =>
            let upperAddress := uint16 u in
            ({| memoryMap := memoryMap st;
                extendedLinearAddress := uint32 (Z.shiftl upperAddress 16) |},
             [], Next)
        end
      else if recordType =? 0 then
        let currentAddress :=
          uint32 (extendedLinearAddress st + addressOffset) in
        let '(m', log, r) :=
          data_loop line currentAddress byteCount (memoryMap st) in
        ({| memoryMap := m';
            extendedLinearAddress := extendedLinearAddress st |},
         log,
         match r with Some e => Caught e | None => Next end)
      else if recordType =? 1 then (st, [], Break)
      else (st, [], Next)
  end.

(** [line.empty() || line[0] != ':'] is false. *)
Definition candidate (line : string) : bool :=
  match line with
  | String c _ => bool_decide (c = ":"%char)
  | EmptyString => false
  end.

(** The [while (std::getline(hexFile, line))] loop. *)
Fixpoint read_lines (lines : list string) (st : state)
    : state * list event :=
  match lines with
  | [] => (st, [])
  | line :: rest =>
      if candidate line then
        let '(st', log, sg) := process_line st line in
        match sg with
        | Break => (st', log)
        | Next =>
            let '(st'', log') := read_lines rest st' in
            (st'', log ++ log')
        | Caught e =>
            let '(st'', log') := read_lines rest st' in
            (st'', log ++ Warning line e :: log')
        end
      else read_lines rest st
  end.

(** ** The binary image *)

(** The body of [for (const auto& pair : memoryMap)] on the pair
    [(binaryData, dataFoundInRange)]. *)
Definition place (address value : Z) (acc : list Z * bool) : list Z * bool :=
  if in_range address
  then (<[Z.to_nat (address - startAddress) := value]> (fst acc), true)
  else acc.

Definition build (bankSize : Z) (m : gmap Z Z) : list Z * bool :=
  map_fold place (replicate (Z.to_nat bankSize) 0xFF, false) m.

End Reader.

(** ** main

    The function from the point where the four arguments are there
    and converted: [startAddress] and [bankSize] are the two
    [uint32_t] values, the files are what opening them gives.

    An outcome is what the program does towards its environment: the
    value it returns, the bytes it passes to [binFile.write] ([None]
    when it does not get to that call), and the lines it prints.  The
    program does not look at the stream after the call, so [written]
    is what it hands to the stream: whether the stream stored the bytes
    has no part in how [main] ends. *)

Record outcome : Type := Outcome {
  status : Z;
  written : option (list Z);
  trace : list event
}.

(** [hexFile] is [None] when the input cannot be opened, otherwise its
    lines; [binWritable] tells whether the output can be created, that
    is whether [binFile.is_open()] holds. *)
Definition main (startAddress bankSize : Z)
    (hexFile : option (list string)) (binWritable : bool) : outcome :=
  let endAddress := uint32 (startAddress + bankSize) in
  match hexFile with
  | None => {| status := 1; written := None; trace := [ErrOpenInput] |}
  | Some lines =>
      let '(st, log) := read_lines startAddress endAddress lines initial in
      let '(binaryData, dataFoundInRange) :=
        build startAddress endAddress bankSize (memoryMap st) in
      if negb dataFoundInRange then
        {| status := 1; written := None;
           trace := log ++ [ParsedOk; ErrNoData] |}
      else if negb binWritable then
        {| status := 1; written := None;
           trace := log ++ [ParsedOk; ErrCreateOutput] |}
      else
        {| status := 0; written := Some binaryData;
           trace := log ++ [ParsedOk; Created (length binaryData);
                              Hash (crc32 binaryData)] |}
  end.

(** ** Derived notions used in the statements *)

(** The value of the last assignment to address [a] recorded in [log]. *)
Fixpoint last_store (a : Z) (log : list event) : option Z :=
  match log with
  | [] => None
  | ev :: rest =>
      match last_store a rest with
      | Some w => Some w
      | None =>
          match ev with
          | Store a' v => if a' =? a then Some v else None
          | _ => None
          end
      end
  end.

Definition is_store (ev : event) : bool :=
  match ev with Store _ _ => true | _ => false end.

(** The map that results from replaying [log] on [m]. *)
Definition replayed (m m' : gmap Z Z) (log : list event) : Prop :=
  forall a, m' !! a = match last_store a log with
                      | Some v => Some v
                      | None => m !! a
                      end.

(** The reader and the image for the window of [main]. *)
Definition run (startAddress bankSize : Z) (lines : list string) (st : state)
    : state * list event :=
  read_lines startAddress (uint32 (startAddress + bankSize)) lines st.

Definition image (startAddress bankSize : Z) (m : gmap Z Z) : list Z :=
  fst (build startAddress (uint32 (startAddress + bankSize)) bankSize m).

(** The address of payload byte [i] of a Data record with offset
    [addressOffset] read under the high base [base]. *)
Definition byte_address (base addressOffset : Z) (i : nat) : Z :=
  uint32 (uint32 (base + addressOffset) + Z.of_nat i).

(** Every payload byte of [line] with index in [lo, hi) whose address
    passes the window test converts. *)
Definition payload_readable (startAddress endAddress : Z) (line : string)
    (currentAddress : Z) (lo hi : nat) : Prop :=
  forall j, (lo <= j < hi)%nat ->
    in_range startAddress endAddress (uint32 (currentAddress + Z.of_nat j)) = true ->
    is_ok (hex_field line (9 + j * 2) 2) = true.

(** The record type the reader finds in a line, when it finds one. *)
Definition record_type (line : string) : option Z :=
  if candidate line then
    match header line with
    | Ok (_, _, recordType) => Some recordType
    | Throw _ => None
    end
  else None.

(** One of the conversions the reader performs on [line] under the high
    base [base] throws [e], all before it having succeeded: a header
    field, the address field of a type [0x04] record, or a payload byte
    of a Data record whose address passes the window test. *)
Definition throws (startAddress endAddress base : Z) (line : string)
    (e : exn) : Prop :=
  header line = Throw e
  \/ (exists bc off, header line = Ok (bc, off, 4) /\ hex_field line 9 4 = Throw e)
  \/ (exists bc off k,
        header line = Ok (bc, off, 0) /\ (k < Z.to_nat bc)%nat
        /\ in_range startAddress endAddress (byte_address base off k) = true
        /\ hex_field line (9 + k * 2) 2 = Throw e
        /\ payload_readable startAddress endAddress line (uint32 (base + off)) 0 k).

(** The field of [n] characters at [pos] starts beyond the end of
    [line], or what the line has of it does not begin, after blanks and
    a sign, with a hex digit. *)
Definition unreadable (line : string) (pos n : nat) : Prop :=
  (String.length line < pos)%nat
  \/ leading_digit (String.substring pos n line) = false.

(** One of the fields the reader converts on [line] under the high base
    [base] is unreadable: a header field, the address field of a type
    [0x04] record, or a payload byte of a Data record whose address
    passes the window test. *)
Definition malformed (startAddress endAddress base : Z) (line : string) : Prop :=
  unreadable line 1 2 \/ unreadable line 3 4 \/ unreadable line 7 2
  \/ (exists bc off, header line = Ok (bc, off, 4) /\ unreadable line 9 4)
  \/ (exists bc off k,
        header line = Ok (bc, off, 0) /\ (k < Z.to_nat bc)%nat
        /\ in_range startAddress endAddress (byte_address base off k) = true
        /\ unreadable line (9 + k * 2) 2).

(** A parsed byte in the requested window: [lines] holds a Data record,
    read before any terminator, one of whose payload bytes has its
    address [a] in [startAddress, startAddress + bankSize) and converts
    to [v], every payload byte before it that lies in that window
    converting too (the first that does not ends the record). *)
Definition places (startAddress bankSize : Z) (lines : list string)
    (a v : Z) : Prop :=
  exists pre data post bc off k w,
    lines = pre ++ data :: post
    /\ Forall (fun l => record_type l <> Some 1) pre
    /\ candidate data = true /\ header data = Ok (bc, off, 0)
    /\ (k < Z.to_nat bc)%nat
    /\ let base :=
         extendedLinearAddress (fst (run startAddress bankSize pre initial)) in
       a = byte_address base off k
       /\ startAddress <= a < startAddress + bankSize
       /\ hex_field data (9 + k * 2) 2 = Ok w /\ v = uint8 w
       /\ forall j, (j < k)%nat ->
            startAddress <= byte_address base off j < startAddress + bankSize ->
            is_ok (hex_field data (9 + j * 2) 2) = true.

(** A record line as the specification describes it: after the marker,
    eight hex digits of byte count, offset and type, then two hex digits
    for each of the bytes the count declares. *)
Module Format.

Definition is_hex (c : ascii) : bool := bool_decide (is_Some (hex_digit c)).

Definition all_hex (s : string) : bool :=
  forallb is_hex (list_ascii_of_string s).

Definition fields_well_formed (line : string) : bool :=
  let head := String.substring 1 8 line in
  (String.length head =? 8)%nat && all_hex head &&
  match stoi16 (String.substring 1 2 line) with
  | Ok count =>
      let payload := String.substring 9 (2 * Z.to_nat count) line in
      (String.length payload =? 2 * Z.to_nat count)%nat && all_hex payload
  | Throw _ => false
  end.

End Format.

(** ** Notions for the further properties *)

(** The bytes of a list as one number, first byte lowest. *)
Fixpoint word_of (bytes : list Z) : Z :=
  match bytes with
  | [] => 0
  | b :: rest => b + 256 * word_of rest
  end.

(** Bit [i] of an input, the bits numbered in the order [crc32] consumes
    them: byte by byte, the lowest bit of a byte first. *)
Definition bit_at (data : list Z) (i : Z) : bool :=
  match data !! Z.to_nat (i / 8) with
  | Some byte => Z.testbit byte (i mod 8)
  | None => false
  end.

(** One pass of the inner loop undone, for a 32-bit register. *)
Definition crc_unshift (crc : Z) : Z :=
  if Z.testbit crc 31 then 2 * Z.lxor crc POLYNOMIAL + 1 else 2 * crc.

(** A line the reader passes over: one that is no candidate, or a
    candidate whose record type is none of [0x00], [0x01], [0x04]. *)
Definition skippable (line : string) : bool :=
  negb (candidate line)
  || match header line with
     | Ok (_, _, recordType) =>
         negb (recordType =? 4) && negb (recordType =? 0) && negb (recordType =? 1)
     | Throw _ => false
     end.

(** The high base is a 16-bit value shifted left by 16. *)
Definition aligned_base (st : state) : Prop :=
  exists u, 0 <= u < 65536 /\ extendedLinearAddress st = u * 65536.

(** A line with its letters [a]..[z] in upper case. *)
Definition to_upper (c : ascii) : ascii :=
  if (97 <=? code c) && (code c <=? 122)
  then ascii_of_N (Z.to_N (code c - 32)) else c.

Fixpoint upper_case (s : string) : string :=
  match s with
  | String c r => String (to_upper c) (upper_case r)
  | EmptyString => EmptyString
  end.

(** ** main, from the command line

    [std::stoul(s, nullptr, 16)] reads like [stoi16]; it throws
    [out_of_range] when the digits exceed [ULONG_MAX], the platform's
    largest [unsigned long], and negates modulo [ULONG_MAX + 1] after a
    minus sign.  [main_argv] is [main] of hex_tool.cpp from its first
    line: the argument count, the two conversions (an exception they
    throw is caught nowhere), then the part modelled by [main]. *)

Section CommandLine.

Variable ULONG_MAX : Z.

Definition stoul16 (s : string) : result Z :=
  let '(neg, s1) := take_sign (skip_space s) in
  let '(v, n) := digits 0 0 (skip_0x s1) in
  if (n =? 0)%nat then Throw invalid_argument
  else if ULONG_MAX <? v then Throw out_of_range
  else Ok (if neg : bool then (- v) mod (ULONG_MAX + 1) else v).

(** How the program ends: [printUsage(); return 1;], an uncaught
    exception, or a return from the rest of [main]. *)
Inductive ending : Type :=
| UsageError
| Uncaught (e : exn)
| Returned (out : outcome).

Definition main_argv (argv : list string)
    (open_hex : string -> option (list string))
    (can_create : string -> bool) : ending :=
  match argv with
  | [_; hexFilePath; binFilePath; arg3; arg4] =>
      match stoul16 arg3 with
      | Throw e => Uncaught e
      | Ok s =>
          let startAddress := uint32 s in
          match stoul16 arg4 with
          | Throw e => Uncaught e
          | Ok b =>
              let bankSize := uint32 b in
              Returned (main startAddress bankSize (open_hex hexFilePath)
                             (can_create binFilePath))
          end
      end
  | _ => UsageError
  end.

End CommandLine.

(** The number a string of hex digits writes. *)
Definition hex_number (s : string) : Z := fst (digits 0 0 s).

(** ** bin_to_header.cpp *)

Module BinToHeader.

(** [isalnum] in the C locale. *)
Definition isalnum (c : ascii) : bool :=
  let n := code c in
  ((48 <=? n) && (n <=? 57)) || ((65 <=? n) && (n <=? 90))
  || ((97 <=? n) && (n <=? 122)).

(** The loop of [sanitize_name] over the positions of [var_name]. *)
Fixpoint sanitize_name (filename : string) : string :=
  match filename with
  | String c rest =>
      String (if isalnum c then c else "_"%char) (sanitize_name rest)
  | EmptyString => EmptyString
  end.

(** [s.find_last_of(set)]: the last position that holds a character of
    [set]; [None] is [npos]. *)
Fixpoint find_last_of (set : list ascii) (s : string) : option nat :=
  match s with
  | EmptyString => None
  | String c rest =>
      match find_last_of set rest with
      | Some i => Some (S i)
      | None => if existsb (Ascii.eqb c) set then Some 0%nat else None
      end
  end.

(** [input_path.substr(input_path.find_last_of("/\\") + 1)]; [npos + 1]
    is [0]. *)
Definition file_name (input_path : string) : string :=
  let pos :=
    match find_last_of ["/"%char; "\"%char] input_path with
    | Some i => S i
    | None => 0%nat
    end in
  String.substring pos (String.length input_path - pos) input_path.

(** [filename.substr(0, filename.find_last_of('.'))]; a count of [npos]
    takes the whole name. *)
Definition base_name_of (filename : string) : string :=
  match find_last_of ["."%char] filename with
  | Some i => String.substring 0 i filename
  | None => filename
  end.

Definition newline : string := String (ascii_of_nat 10) EmptyString.

Definition hex_char (d : Z) : ascii :=
  ascii_of_N (Z.to_N (if d <? 10 then 48 + d else 87 + d)).

(** [std::hex << std::setw(2) << std::setfill('0')] on a value in
    [0, 255]: two lower-case hex digits. *)
Definition hex2 (v : Z) : string :=
  String (hex_char (v / 16)) (String (hex_char (v mod 16)) EmptyString).

(** The [while (f_in.get(byte))] loop: what it writes for the bytes it
    reads, [byte_count] being the count before them.  ([byte_count] is
    an [int]: this is the loop for fewer than [2^31] bytes.) *)
Fixpoint array_body (bytes : list Z) (byte_count : Z) : string :=
  match bytes with
  | [] => EmptyString
  | byte :: rest =>
      let byte_count := byte_count + 1 in
      ("0x" ++ hex2 (Z.land 0xFF byte) ++ ", "
       ++ (if (byte_count mod 16 =? 0)%Z then newline ++ "    " else EmptyString)
       ++ array_body rest byte_count)%string
  end.

Inductive message : Type :=
| CannotOpen (input_path : string)
| CannotCreate (output_path : string)
| Converting (filename output_path : string)
| Success.

(** [convert_file]: [opened] is [None] when the input cannot be opened,
    otherwise the size [tellg] reports and the bytes the read loop gets;
    [can_create] tells whether the output can be created.  The result is
    what is printed and the file written, as path and text. *)
Definition convert_file (input_path : string) (opened : option (Z * list Z))
    (can_create : bool) : list message * option (string * string) :=
  match opened with
  | None => ([CannotOpen input_path], None)
  | Some (size, bytes) =>
      let filename := file_name input_path in
      let base_name := base_name_of filename in
      let var_name := sanitize_name base_name in
      let output_path := (base_name ++ ".embed")%string in
      if negb can_create then ([CannotCreate output_path], None)
      else
        ([Converting filename output_path; Success],
         Some (output_path,
               ("// Converted from " ++ filename ++ newline
                ++ "const unsigned int " ++ var_name ++ "_size = "
                ++ pretty size ++ ";" ++ newline
                ++ "const unsigned char " ++ var_name ++ "[] = {" ++ newline
                ++ "    " ++ array_body bytes 0%Z
                ++ newline ++ "};" ++ newline)%string))
  end.

(** Reading an array body back: every [0x] followed by two hex digits
    is an element. *)
Fixpoint read_array (text : string) : list Z :=
  match text with
  | String c0 rest0 =>
      match rest0 with
      | String c1 (String h1 (String h2 rest)) =>
          if (code c0 =? 48) && (code c1 =? 120) then
            match hex_digit h1, hex_digit h2 with
            | Some a, Some b => (a * 16 + b) :: read_array rest
            | _, _ => read_array rest0
            end
          else read_array rest0
      | _ => read_array rest0
      end
  | EmptyString => []
  end.

(** No character of [s] is in [set]. *)
Definition free_of (set : list ascii) (s : string) : Prop :=
  find_last_of set s = None.

End BinToHeader.

(** * Properties *)

(** ** Bit-level facts for the checksum *)

Section Bits.

Lemma land_1_odd (a : Z) : negb (Z.land a 1 =? 0) = Z.odd a.
Proof.
  change 1 with (Z.ones 1). rewrite Z.land_ones by lia.
  change (2 ^ 1) with 2. rewrite <- Z.bit0_mod, Z.bit0_odd.
  now destruct (Z.odd a).
Qed.

Lemma shiftr_1_half (a : Z) : Z.shiftr a 1 = a / 2.
Proof. now rewrite Z.shiftr_div_pow2 by lia. Qed.

Lemma land_lxor_distr (a b c : Z) :
  Z.land (Z.lxor a b) c = Z.lxor (Z.land a c) (Z.land b c).
Proof.
  apply Z.bits_inj'. intros k _.
  rewrite Z.lxor_spec, !Z.land_spec, Z.lxor_spec.
  now destruct (Z.testbit a k), (Z.testbit b k), (Z.testbit c k).
Qed.

Lemma lxor_below (n a b : Z) :
  0 <= n -> 0 <= a < 2 ^ n -> 0 <= b < 2 ^ n -> 0 <= Z.lxor a b < 2 ^ n.
Proof.
  intros Hn Ha Hb.
  rewrite <- (Z.mod_small a (2 ^ n)), <- (Z.mod_small b (2 ^ n)) by lia.
  rewrite <- !Z.land_ones, <- land_lxor_distr, Z.land_ones by lia.
  apply Z.mod_pos_bound. lia.
Qed.

Lemma lxor_low_byte (reg byte : Z) :
  0 <= byte < 256 -> Z.lxor reg byte = Reference.xor_low8 reg byte.
Proof.
  intros Hb. unfold Reference.xor_low8.
  rewrite (Z.div_mod (Z.lxor reg byte) 256) at 1 by lia.
  change 256 with (2 ^ 8).
  rewrite <- !Z.shiftr_div_pow2, <- !Z.land_ones by lia.
  rewrite Z.shiftr_lxor, land_lxor_distr.
  rewrite (Z.shiftr_div_pow2 byte), (Z.land_ones byte) by lia.
  change (2 ^ 8) with 256.
  rewrite (Z.div_small byte), (Z.mod_small byte), Z.lxor_0_r by lia.
  lia.
Qed.

End Bits.

Lemma crc_shift_reference (j : nat) (crc : Z) :
  crc_shift j crc = Nat.iter j Reference.shift_once crc.
Proof.
  revert crc. induction j as [|j IH]; intros crc; [reflexivity|].
  rewrite Nat.iter_succ_r. cbn [crc_shift]. rewrite IH. f_equal.
  unfold Reference.shift_once.
  now rewrite land_1_odd, shiftr_1_half.
Qed.

Lemma crc_update_reference (crc byte : Z) :
  0 <= byte < 256 -> crc_update crc byte = Reference.per_byte crc byte.
Proof.
  intros Hb. unfold crc_update, Reference.per_byte.
  now rewrite crc_shift_reference, lxor_low_byte.
Qed.

Lemma crc_shift_range (j : nat) (crc : Z) :
  0 <= crc < 2 ^ 32 -> 0 <= crc_shift j crc < 2 ^ 32.
Proof.
  revert crc. induction j as [|j IH]; intros crc Hc; [exact Hc|].
  cbn [crc_shift]. apply IH. rewrite shiftr_1_half.
  assert (0 <= crc / 2 < 2 ^ 32) by (split; [apply Z.div_pos|apply Z.div_lt_upper_bound]; lia).
  destruct (negb _); [|assumption].
  apply lxor_below; [lia|assumption|]. unfold POLYNOMIAL. lia.
Qed.

Lemma crc_update_range (crc byte : Z) :
  0 <= crc < 2 ^ 32 -> 0 <= byte < 256 -> 0 <= crc_update crc byte < 2 ^ 32.
Proof.
  intros Hc Hb. apply crc_shift_range, lxor_below; lia.
Qed.

Lemma crc_fold_reference (data : list Z) (crc : Z) :
  Forall (fun b => 0 <= b < 256) data ->
  0 <= crc < 2 ^ 32 ->
  fold_left crc_update data crc = fold_left Reference.per_byte data crc
  /\ 0 <= fold_left crc_update data crc < 2 ^ 32.
Proof.
  intros Hd. revert crc. induction Hd as [|b data Hb _ IH]; intros crc Hc.
  - now split.
  - cbn [fold_left]. rewrite <- crc_update_reference by exact Hb.
    apply IH, crc_update_range; assumption.
Qed.

(** C2.  On every sequence of bytes [crc32] is the CRC-32/ISO-HDLC of
    the specification (register from [0xFFFFFFFF], the byte XORed into
    the low eight bits, eight conditional shift-and-XOR steps with
    [0xEDB88320], a final XOR with [0xFFFFFFFF]) and a 32-bit value; it
    is [0] on the empty sequence and [0xCBF43926] on the ASCII bytes of
    "123456789". *)
Theorem crc32_is_iso_hdlc (data : list Z) :
  Forall (fun b => 0 <= b < 256) data ->
  crc32 data = Reference.crc32_iso_hdlc data
  /\ 0 <= crc32 data < 2 ^ 32
  /\ crc32 [] = 0x00000000
  /\ crc32 [49; 50; 51; 52; 53; 54; 55; 56; 57] = 0xCBF43926.
Proof.
  intros Hd.
  destruct (crc_fold_reference data 0xFFFFFFFF Hd ltac:(lia)) as [Heq Hr].
  unfold crc32, Reference.crc32_iso_hdlc.
  split; [now rewrite Heq|].
  split; [apply lxor_below; lia|].
  split; vm_compute; reflexivity.
Qed.

Lemma crc32_is_iso_hdlc_witness :
  crc32 [222; 173; 190; 239] = Reference.crc32_iso_hdlc [222; 173; 190; 239]
  /\ 0 <= crc32 [222; 173; 190; 239] < 2 ^ 32
  /\ crc32 [] = 0
  /\ crc32 [49; 50; 51; 52; 53; 54; 55; 56; 57] = 0xCBF43926.
Proof.
  apply (crc32_is_iso_hdlc [222; 173; 190; 239]).
  repeat constructor; lia.
Defined.

(** ** Wrap-around and the store log *)

Lemma uint32_range (z : Z) : 0 <= uint32 z < 2 ^ 32.
Proof. unfold uint32. apply Z.mod_pos_bound. lia. Qed.

Lemma uint32_small (z : Z) : 0 <= z < 2 ^ 32 -> uint32 z = z.
Proof. unfold uint32. apply Z.mod_small. Qed.

Lemma uint8_range (z : Z) : 0 <= uint8 z < 256.
Proof. unfold uint8. apply Z.mod_pos_bound. lia. Qed.

(** Two offsets below [2^32] from the same address never wrap onto each
    other. *)
Lemma uint32_add_inj (c i j : Z) :
  0 <= i < 2 ^ 32 -> 0 <= j < 2 ^ 32 ->
  uint32 (c + i) = uint32 (c + j) -> i = j.
Proof.
  unfold uint32. intros Hi Hj H.
  pose proof (Z.div_mod (c + i) (2 ^ 32) ltac:(lia)) as Ei.
  pose proof (Z.div_mod (c + j) (2 ^ 32) ltac:(lia)) as Ej.
  rewrite H in Ei.
  set (qi := (c + i) / 2 ^ 32) in *. set (qj := (c + j) / 2 ^ 32) in *.
  set (r := (c + j) mod 2 ^ 32) in *. lia.
Qed.

Lemma last_store_app (a : Z) (l1 l2 : list event) :
  last_store a (l1 ++ l2) =
  match last_store a l2 with
  | Some v => Some v
  | None => last_store a l1
  end.
Proof.
  induction l1 as [|ev l1 IH]; cbn [app last_store].
  - now destruct (last_store a l2).
  - rewrite IH. now destruct (last_store a l2).
Qed.

Lemma last_store_cons_other (a : Z) (ev : event) (log : list event) :
  is_store ev = false -> last_store a (ev :: log) = last_store a log.
Proof.
  intros H. cbn [last_store]. destruct (last_store a log); [reflexivity|].
  now destruct ev.
Qed.

Lemma last_store_none (a : Z) (log : list event) :
  (forall v, ~ In (Store a v) log) -> last_store a log = None.
Proof.
  induction log as [|ev log IH]; intros H; [reflexivity|].
  cbn [last_store]. rewrite IH by (intros v Hv; apply (H v); now right).
  destruct ev as [a' v| | | | | | |]; try reflexivity.
  destruct (Z.eqb_spec a' a) as [->|]; [|reflexivity].
  exfalso. apply (H v). now left.
Qed.

Lemma last_store_in (a v : Z) (log : list event) :
  last_store a log = Some v -> In (Store a v) log.
Proof.
  induction log as [|ev log IH]; cbn [last_store]; [discriminate|].
  destruct (last_store a log) as [w|].
  - intros [= ->]. right. now apply IH.
  - destruct ev as [a' v'| | | | | | |]; try discriminate.
    destruct (Z.eqb_spec a' a) as [->|]; [|discriminate].
    intros [= ->]. now left.
Qed.

Lemma replayed_nil (m : gmap Z Z) : replayed m m [].
Proof. intros a. reflexivity. Qed.

Lemma replayed_app (m1 m2 m3 : gmap Z Z) (l1 l2 : list event) :
  replayed m1 m2 l1 -> replayed m2 m3 l2 -> replayed m1 m3 (l1 ++ l2).
Proof.
  intros H1 H2 a. rewrite last_store_app, H2.
  destruct (last_store a l2); [reflexivity|apply H1].
Qed.

Lemma replayed_store (m : gmap Z Z) (a v : Z) :
  replayed m (<[a := v]> m) [Store a v].
Proof.
  intros b. cbn [last_store]. destruct (Z.eqb_spec a b) as [->|Hne].
  - apply lookup_insert_eq.
  - now apply lookup_insert_ne.
Qed.

Lemma replayed_warning (m m' : gmap Z Z) (line : string) (e : exn)
    (log : list event) :
  replayed m m' log -> replayed m m' (Warning line e :: log).
Proof. intros H a. rewrite last_store_cons_other by reflexivity. apply H. Qed.

(** ** The loop over the payload of a Data record *)

Section DataLoop.

Variables startAddress endAddress : Z.
Variable line : string.
Variable currentAddress : Z.

Local Abbreviation in_window := (in_range startAddress endAddress).
Local Abbreviation address i := (uint32 (currentAddress + Z.of_nat i)).
Local Abbreviation payload i := (hex_field line (9 + i * 2) 2).
Local Abbreviation loop := (data_from startAddress endAddress line currentAddress).
Local Abbreviation readable :=
  (payload_readable startAddress endAddress line currentAddress).

Lemma data_from_replayed (n i : nat) (m m' : gmap Z Z) (log : list event)
    (r : option exn) :
  loop n i m = (m', log, r) -> replayed m m' log.
Proof.
  revert i m m' log r. induction n as [|n IH]; intros i m m' log r; cbn [data_from].
  - intros [= <- <- <-]. apply replayed_nil.
  - destruct (in_window (address i)); [|apply IH].
    destruct (payload i) as [v|e]; [|intros [= <- <- <-]; apply replayed_nil].
    destruct (loop n (S i) _) as [[m1 log1] r1] eqn:E.
    intros [= <- <- <-].
    apply (replayed_app _ _ _ [Store _ _] log1 (replayed_store _ _ _)).
    eapply IH, E.
Qed.

(** Each logged event is the assignment of one converted payload byte
    whose address passed the window test. *)
Lemma data_from_events (n i : nat) (m m' : gmap Z Z) (log : list event)
    (r : option exn) :
  loop n i m = (m', log, r) ->
  forall ev, In ev log ->
  exists k v, (i <= k < i + n)%nat /\ ev = Store (address k) (uint8 v)
              /\ in_window (address k) = true /\ payload k = Ok v.
Proof.
  revert i m m' log r. induction n as [|n IH]; intros i m m' log r; cbn [data_from].
  - intros [= <- <- <-] ev [].
  - destruct (in_window (address i)) eqn:Hw.
    + destruct (payload i) as [v|e] eqn:Hp; [|intros [= <- <- <-] ev []].
      destruct (loop n (S i) _) as [[m1 log1] r1] eqn:E.
      intros [= <- <- <-] ev [<-|Hin].
      * exists i, v. repeat split; [lia|lia|assumption|assumption].
      * destruct (IH _ _ _ _ _ E ev Hin) as (k & w & Hk & H).
        exists k, w. split; [lia|exact H].
    + intros E ev Hin. destruct (IH _ _ _ _ _ E ev Hin) as (k & w & Hk & H).
      exists k, w. split; [lia|exact H].
Qed.

(** How the loop ends: normally when every in-window byte converts,
    otherwise with the exception of the first in-window byte that does
    not. *)
Lemma data_from_signal (n i : nat) (m m' : gmap Z Z) (log : list event)
    (r : option exn) :
  loop n i m = (m', log, r) ->
  match r with
  | None => readable i (i + n)
  | Some e =>
      exists k, (i <= k < i + n)%nat /\ in_window (address k) = true
                /\ payload k = Throw e /\ readable i k
  end.
Proof.
  revert i m m' log r. induction n as [|n IH]; intros i m m' log r; cbn [data_from].
  - intros [= <- <- <-] j Hj. lia.
  - assert (Hstep : forall hi, (forall j, (i <= j < hi)%nat -> j = i \/ (S i <= j < hi)%nat))
      by (intros; lia).
    destruct (in_window (address i)) eqn:Hw.
    + destruct (payload i) as [v|e] eqn:Hp.
      * destruct (loop n (S i) _) as [[m1 log1] r1] eqn:E.
        intros [= <- <- <-]. specialize (IH _ _ _ _ _ E).
        destruct r1 as [e|].
        -- destruct IH as (k & Hk & Hkw & Hkp & Hr).
           exists k. repeat split; [lia|lia|assumption|assumption|].
           intros j Hj Hjw. destruct (Hstep k j Hj) as [->|Hj'].
           ++ now rewrite Hp.
           ++ now apply Hr.
        -- intros j Hj Hjw. destruct (Hstep (i + S n)%nat j Hj) as [->|Hj'].
           ++ now rewrite Hp.
           ++ apply IH; [lia|assumption].
      * intros [= <- <- <-]. exists i. repeat split; [lia|lia|assumption|assumption|].
        intros j Hj. lia.
    + intros E. specialize (IH _ _ _ _ _ E). destruct r as [e|].
      * destruct IH as (k & Hk & Hkw & Hkp & Hr).
        exists k. repeat split; [lia|lia|assumption|assumption|].
        intros j Hj Hjw. destruct (Hstep k j Hj) as [->|Hj'].
        -- congruence.
        -- now apply Hr.
      * intros j Hj Hjw. destruct (Hstep (i + S n)%nat j Hj) as [->|Hj'].
        -- congruence.
        -- apply IH; [lia|assumption].
Qed.

Lemma data_from_normal (n i : nat) (m : gmap Z Z) :
  readable i (i + n) -> snd (loop n i m) = None.
Proof.
  intros Hr. destruct (loop n i m) as [[m' log] r] eqn:E.
  pose proof (data_from_signal _ _ _ _ _ _ E) as H.
  destruct r as [e|]; [|reflexivity].
  destruct H as (k & Hk & Hkw & Hkp & _).
  specialize (Hr k Hk Hkw). now rewrite Hkp in Hr.
Qed.

Lemma data_from_throws (n i k : nat) (m : gmap Z Z) (e : exn) :
  (i <= k < i + n)%nat -> in_window (address k) = true ->
  payload k = Throw e -> readable i k ->
  snd (loop n i m) = Some e.
Proof.
  intros Hk Hkw Hkp Hr. destruct (loop n i m) as [[m' log] r] eqn:E.
  pose proof (data_from_signal _ _ _ _ _ _ E) as H. cbn [snd].
  destruct r as [e'|].
  - destruct H as (k' & Hk' & Hkw' & Hkp' & Hr').
    destruct (Nat.lt_trichotomy k k') as [Hlt|[->|Hgt]].
    + specialize (Hr' k ltac:(lia) Hkw). now rewrite Hkp in Hr'.
    + congruence.
    + specialize (Hr k' ltac:(lia) Hkw'). now rewrite Hkp' in Hr.
  - specialize (H k Hk Hkw). now rewrite Hkp in H.
Qed.

(** Addresses the loop does not visit keep their entry. *)
Lemma data_from_other (n i : nat) (m : gmap Z Z) (a : Z) :
  (forall j, (i <= j < i + n)%nat -> address j <> a) ->
  fst (fst (loop n i m)) !! a = m !! a.
Proof.
  intros Hne. destruct (loop n i m) as [[m' log] r] eqn:E. cbn [fst].
  rewrite (data_from_replayed _ _ _ _ _ _ E a).
  rewrite last_store_none; [reflexivity|].
  intros v Hin.
  destruct (data_from_events _ _ _ _ _ _ E _ Hin) as (k & w & Hk & [= Ha _] & _).
  now apply (Hne k Hk).
Qed.

(** A byte the loop reaches is in the map when the loop is left, however
    it is left. *)
Lemma data_from_committed (n i k : nat) (m : gmap Z Z) (v : Z) :
  (i <= k < i + n)%nat -> Z.of_nat (i + n) <= 2 ^ 32 ->
  in_window (address k) = true -> payload k = Ok v -> readable i k ->
  fst (fst (loop n i m)) !! address k = Some (uint8 v).
Proof.
  revert i m. induction n as [|n IH]; intros i m Hk Hn Hkw Hkp Hr; [lia|].
  cbn [data_from].
  assert (Hnext : i <> k -> readable (S i) k)
    by (intros ? j Hj; apply Hr; lia).
  destruct (Nat.eq_dec i k) as [->|Hik].
  - rewrite Hkw, Hkp.
    destruct (loop n (S k) _) as [[m1 log1] r1] eqn:E. cbn [fst].
    change m1 with (fst (fst (m1, log1, r1))). rewrite <- E.
    rewrite data_from_other; [apply lookup_insert_eq|].
    intros j Hj Heq. apply uint32_add_inj in Heq; lia.
  - destruct (in_window (address i)) eqn:Hw.
    + pose proof (Hr i ltac:(lia) Hw) as Hok.
      destruct (payload i) as [w|e]; [|discriminate].
      destruct (loop n (S i) _) as [[m1 log1] r1] eqn:E. cbn [fst].
      change m1 with (fst (fst (m1, log1, r1))). rewrite <- E.
      apply IH; [lia|lia|assumption|assumption|auto].
    + apply IH; [lia|lia|assumption|assumption|auto].
Qed.

End DataLoop.

(** ** One line, and the loop over the lines *)

Section Lines.

Variables startAddress endAddress : Z.

Local Abbreviation in_window := (in_range startAddress endAddress).
Local Abbreviation step := (process_line startAddress endAddress).
Local Abbreviation reader := (read_lines startAddress endAddress).

(** What [process_line] does, by record type. *)
Lemma process_line_header_throws (st : state) (line : string) (e : exn) :
  header line = Throw e -> step st line = (st, [], Caught e).
Proof. intros H. unfold process_line. now rewrite H. Qed.

Lemma process_line_terminator (st : state) (line : string) (bc off : Z) :
  header line = Ok (bc, off, 1) -> step st line = (st, [], Break).
Proof. intros H. unfold process_line. now rewrite H. Qed.

Lemma process_line_high_address (st : state) (line : string) (bc off : Z) :
  header line = Ok (bc, off, 4) ->
  step st line =
  match hex_field line 9 4 with
  | Throw e => (st, [], Caught e)
  | Ok u => ({| memoryMap := memoryMap st;
                extendedLinearAddress := uint32 (Z.shiftl (uint16 u) 16) |},
             [], Next)
  end.
Proof. intros H. unfold process_line. now rewrite H. Qed.

Lemma process_line_data (st : state) (line : string) (bc off : Z) :
  header line = Ok (bc, off, 0) ->
  step st line =
  let '(m', log, r) :=
    data_loop startAddress endAddress line
              (uint32 (extendedLinearAddress st + off)) bc (memoryMap st) in
  ({| memoryMap := m'; extendedLinearAddress := extendedLinearAddress st |},
   log, match r with Some e => Caught e | None => Next end).
Proof. intros H. unfold process_line. now rewrite H. Qed.

Lemma process_line_ignored (st : state) (line : string) (bc off ty : Z) :
  header line = Ok (bc, off, ty) -> ty <> 4 -> ty <> 0 -> ty <> 1 ->
  step st line = (st, [], Next).
Proof.
  intros H H4 H0 H1. unfold process_line. rewrite H.
  destruct (Z.eqb_spec ty 4); [contradiction|].
  destruct (Z.eqb_spec ty 0); [contradiction|].
  destruct (Z.eqb_spec ty 1); [contradiction|reflexivity].
Qed.

Lemma header_fields (line : string) (bc off ty : Z) :
  header line = Ok (bc, off, ty) ->
  0 <= bc < 256 /\ 0 <= off < 65536 /\ 0 <= ty < 256.
Proof.
  unfold header, bind.
  destruct (hex_field line 1 2); [|discriminate].
  destruct (hex_field line 3 4); [|discriminate].
  destruct (hex_field line 7 2); [|discriminate].
  intros [= <- <- <-]. unfold uint8, uint16.
  repeat split; apply Z.mod_pos_bound; lia.
Qed.

(** The map after a line is the map before it with the logged stores
    replayed, and only in-window addresses are stored. *)
Lemma process_line_replayed (st st' : state) (line : string)
    (log : list event) (sg : signal) :
  step st line = (st', log, sg) ->
  replayed (memoryMap st) (memoryMap st') log
  /\ forall ev, In ev log -> exists a v, ev = Store a v /\ in_window a = true.
Proof.
  unfold process_line.
  destruct (header line) as [[[bc off] ty]|e];
    [|intros [= <- <- <-]; split; [apply replayed_nil|intros ev []]].
  destruct (ty =? 4).
  { destruct (hex_field line 9 4); intros [= <- <- <-];
      (split; [apply replayed_nil|intros ev []]). }
  destruct (ty =? 0).
  { unfold data_loop.
    destruct (data_from _ _ _ _ _ _ _) as [[m' log'] r] eqn:E.
    intros [= <- <- <-]. cbn [memoryMap]. split.
    - eapply data_from_replayed, E.
    - intros ev Hin.
      destruct (data_from_events _ _ _ _ _ _ _ _ _ _ E ev Hin)
        as (k & v & _ & -> & Hw & _). eauto. }
  destruct (ty =? 1); intros [= <- <- <-];
    (split; [apply replayed_nil|intros ev []]).
Qed.

Lemma read_lines_replayed (lines : list string) (st st' : state)
    (log : list event) :
  reader lines st = (st', log) ->
  replayed (memoryMap st) (memoryMap st') log
  /\ forall a v, In (Store a v) log -> in_window a = true.
Proof.
  revert st st' log. induction lines as [|line rest IH]; intros st st' log;
    cbn [read_lines].
  - intros [= <- <-]. split; [apply replayed_nil|intros a v []].
  - destruct (candidate line); [|apply IH].
    destruct (step st line) as [[st1 log1] sg] eqn:E1.
    destruct (process_line_replayed _ _ _ _ _ E1) as [R1 W1].
    assert (W1' : forall a v, In (Store a v) log1 -> in_window a = true).
    { intros a v Hin. destruct (W1 _ Hin) as (a' & v' & [= <- <-] & Hw). exact Hw. }
    destruct sg as [| |e].
    + destruct (reader rest st1) as [st2 log2] eqn:E2.
      destruct (IH _ _ _ E2) as [R2 W2]. intros [= <- <-]. split.
      * eapply replayed_app; eassumption.
      * intros a v Hin. apply in_app_or in Hin as [Hin|Hin]; eauto.
    + intros [= <- <-]. now split.
    + destruct (reader rest st1) as [st2 log2] eqn:E2.
      destruct (IH _ _ _ E2) as [R2 W2]. intros [= <- <-]. split.
      * eapply replayed_app; [eassumption|]. now apply replayed_warning.
      * intros a v Hin. apply in_app_or in Hin as [Hin|[Hin|Hin]]; eauto.
        discriminate.
Qed.

End Lines.

(** ** The window and the image *)

Section Image.

Variables startAddress bankSize : Z.

Local Abbreviation endAddress := (uint32 (startAddress + bankSize)).
Local Abbreviation in_window := (in_range startAddress endAddress).

(** Every index [address - startAddress] the population loop uses lies
    inside the vector. *)
Lemma window_index (a : Z) :
  0 <= startAddress < 2 ^ 32 -> 0 <= bankSize < 2 ^ 32 ->
  in_window a = true -> 0 <= a - startAddress < bankSize.
Proof.
  intros Hs Hb. unfold in_range, uint32.
  intros [H1 H2]%andb_true_iff. apply Z.leb_le in H1. apply Z.ltb_lt in H2.
  destruct (Z_lt_le_dec (startAddress + bankSize) (2 ^ 32)) as [Hlt|Hge].
  - rewrite Z.mod_small in H2 by lia. lia.
  - replace (startAddress + bankSize)
      with (startAddress + bankSize - 2 ^ 32 + 1 * 2 ^ 32) in H2 by lia.
    rewrite Z.mod_add, Z.mod_small in H2 by lia. lia.
Qed.

(** Without wrap-around the test is membership in
    [startAddress, startAddress + bankSize). *)
Lemma window_exact (a : Z) :
  0 <= startAddress -> 0 <= bankSize -> startAddress + bankSize < 2 ^ 32 ->
  in_window a = true <-> startAddress <= a < startAddress + bankSize.
Proof.
  intros Hs Hb Hlt. unfold in_range, uint32.
  rewrite Z.mod_small by lia.
  rewrite andb_true_iff, Z.leb_le, Z.ltb_lt. reflexivity.
Qed.

(** When the sum reaches [2^32] the end address wraps below the start
    and no address passes the test. *)
Lemma window_wrapped (a : Z) :
  0 <= startAddress < 2 ^ 32 -> 0 <= bankSize < 2 ^ 32 ->
  2 ^ 32 <= startAddress + bankSize ->
  endAddress = startAddress + bankSize - 2 ^ 32 /\ in_window a = false.
Proof.
  intros Hs Hb Hge.
  assert (E : endAddress = startAddress + bankSize - 2 ^ 32).
  { unfold uint32.
    replace (startAddress + bankSize)
      with (startAddress + bankSize - 2 ^ 32 + 1 * 2 ^ 32) at 1 by lia.
    rewrite Z.mod_add, Z.mod_small by lia. reflexivity. }
  split; [exact E|]. unfold in_range. rewrite E.
  destruct (Z.leb_spec startAddress a); [|reflexivity].
  destruct (Z.ltb_spec a (startAddress + bankSize - 2 ^ 32)); [lia|reflexivity].
Qed.

(** The vector and the flag after the population loop. *)
Lemma build_spec (m : gmap Z Z) :
  let acc := build startAddress endAddress bankSize m in
  length (fst acc) = Z.to_nat bankSize
  /\ (forall k, (k < Z.to_nat bankSize)%nat ->
        fst acc !! k =
        Some (match m !! (startAddress + Z.of_nat k) with
              | Some v => if in_window (startAddress + Z.of_nat k) then v else 0xFF
              | None => 0xFF
              end))
  /\ (snd acc = true <-> exists a v, m !! a = Some v /\ in_window a = true).
Proof.
  unfold build.
  apply (map_fold_weak_ind
    (fun (acc : list Z * bool) (m : gmap Z Z) =>
       length (fst acc) = Z.to_nat bankSize
       /\ (forall k, (k < Z.to_nat bankSize)%nat ->
             fst acc !! k =
             Some (match m !! (startAddress + Z.of_nat k) with
                   | Some v => if in_window (startAddress + Z.of_nat k) then v else 0xFF
                   | None => 0xFF
                   end))
       /\ (snd acc = true <-> exists a v, m !! a = Some v /\ in_window a = true))).
  - cbn [fst snd]. split; [apply length_replicate|]. split.
    + intros k Hk. rewrite lookup_empty. now apply lookup_replicate_2.
    + split; [discriminate|]. intros (a & v & H & _). now rewrite lookup_empty in H.
  - intros a x m' [buf found] Hnone (Hlen & Hbuf & Hfound). cbn [fst snd] in *.
    unfold place. cbn [fst]. destruct (in_window a) eqn:Hw.
    + cbn [fst snd]. assert (Ha : startAddress <= a).
      { unfold in_range in Hw. apply andb_true_iff in Hw as [H _]. now apply Z.leb_le. }
      split; [now rewrite length_insert|]. split.
      * intros k Hk.
        destruct (Nat.eq_dec (Z.to_nat (a - startAddress)) k) as [<-|Hne].
        -- rewrite list_lookup_insert_eq by lia.
           replace (startAddress + Z.of_nat (Z.to_nat (a - startAddress))) with a by lia.
           now rewrite lookup_insert_eq, Hw.
        -- rewrite list_lookup_insert_ne by exact Hne.
           rewrite lookup_insert_ne by lia. now apply Hbuf.
      * split; [|reflexivity]. intros _. exists a, x. now rewrite lookup_insert_eq.
    + cbn [fst snd]. split; [exact Hlen|]. split.
      * intros k Hk. rewrite (Hbuf k Hk).
        destruct (Z.eq_dec a (startAddress + Z.of_nat k)) as [<-|Hne].
        -- now rewrite lookup_insert_eq, Hnone, Hw.
        -- now rewrite lookup_insert_ne.
      * rewrite Hfound. split; intros (b & v & Hb & Hbw); exists b, v.
        -- split; [|exact Hbw]. rewrite lookup_insert_ne; [exact Hb|congruence].
        -- split; [|exact Hbw]. rewrite lookup_insert_ne in Hb; [exact Hb|congruence].
Qed.

Lemma image_length (m : gmap Z Z) :
  length (image startAddress bankSize m) = Z.to_nat bankSize.
Proof. apply (build_spec m). Qed.

(** An in-window entry of the map shows in the image at its index. *)
Lemma image_entry (m : gmap Z Z) (a v : Z) :
  0 <= startAddress < 2 ^ 32 -> 0 <= bankSize < 2 ^ 32 ->
  in_window a = true -> m !! a = Some v ->
  image startAddress bankSize m !! Z.to_nat (a - startAddress) = Some v.
Proof.
  intros Hs Hb Hw Hm. pose proof (window_index a Hs Hb Hw) as Hi.
  destruct (build_spec m) as (_ & Hbuf & _). unfold image.
  rewrite Hbuf by lia.
  replace (startAddress + Z.of_nat (Z.to_nat (a - startAddress))) with a by lia.
  now rewrite Hm, Hw.
Qed.

End Image.

(** ** Where a stored byte comes from *)

Lemma process_line_store_origin (startAddress endAddress : Z) (st st' : state)
    (line : string) (log : list event) (sg : signal) (a v : Z) :
  process_line startAddress endAddress st line = (st', log, sg) ->
  In (Store a v) log ->
  exists bc off k w,
    header line = Ok (bc, off, 0) /\ (k < Z.to_nat bc)%nat
    /\ hex_field line (9 + k * 2) 2 = Ok w /\ v = uint8 w
    /\ a = byte_address (extendedLinearAddress st) off k.
Proof.
  unfold process_line.
  destruct (header line) as [[[bc off] ty]|e]; [|intros [= <- <- <-] []].
  destruct (ty =? 4).
  { destruct (hex_field line 9 4); intros [= <- <- <-] []. }
  destruct (Z.eqb_spec ty 0) as [->|_].
  - unfold data_loop.
    destruct (data_from _ _ _ _ _ _ _) as [[m' log'] r] eqn:E.
    intros [= <- <- <-] Hin.
    destruct (data_from_events _ _ _ _ _ _ _ _ _ _ E _ Hin)
      as (k & w & Hk & [= -> ->] & _ & Hp).
    exists bc, off, k, w. repeat split; [lia|exact Hp].
  - destruct (ty =? 1); intros [= <- <- <-] [].
Qed.

Lemma read_lines_store_origin (startAddress endAddress : Z)
    (lines : list string) (st st' : state) (log : list event) (a v : Z) :
  read_lines startAddress endAddress lines st = (st', log) ->
  In (Store a v) log ->
  exists line base bc off k w,
    In line lines /\ candidate line = true
    /\ header line = Ok (bc, off, 0) /\ (k < Z.to_nat bc)%nat
    /\ hex_field line (9 + k * 2) 2 = Ok w /\ v = uint8 w
    /\ a = byte_address base off k.
Proof.
  revert st st' log. induction lines as [|line rest IH]; intros st st' log;
    cbn [read_lines].
  - intros [= <- <-] [].
  - assert (Hrest : forall st1 st2 log2,
      read_lines startAddress endAddress rest st1 = (st2, log2) ->
      In (Store a v) log2 ->
      exists line' base bc off k w,
        In line' (line :: rest) /\ candidate line' = true
        /\ header line' = Ok (bc, off, 0) /\ (k < Z.to_nat bc)%nat
        /\ hex_field line' (9 + k * 2) 2 = Ok w /\ v = uint8 w
        /\ a = byte_address base off k).
    { intros st1 st2 log2 E2 Hin.
      destruct (IH _ _ _ E2 Hin) as (l & base & bc & off & k & w & Hl & H).
      exists l, base, bc, off, k, w. split; [now right|exact H]. }
    destruct (candidate line) eqn:Hc; [|apply Hrest].
    destruct (process_line _ _ st line) as [[st1 log1] sg] eqn:E1.
    assert (Hhere : In (Store a v) log1 ->
      exists line' base bc off k w,
        In line' (line :: rest) /\ candidate line' = true
        /\ header line' = Ok (bc, off, 0) /\ (k < Z.to_nat bc)%nat
        /\ hex_field line' (9 + k * 2) 2 = Ok w /\ v = uint8 w
        /\ a = byte_address base off k).
    { intros Hin.
      destruct (process_line_store_origin _ _ _ _ _ _ _ _ _ E1 Hin)
        as (bc & off & k & w & H).
      exists line, (extendedLinearAddress st), bc, off, k, w.
      split; [now left|]. split; [exact Hc|exact H]. }
    destruct sg as [| |e].
    + destruct (read_lines _ _ rest st1) as [st2 log2] eqn:E2.
      intros [= <- <-] Hin. apply in_app_or in Hin as [Hin|Hin]; eauto.
    + intros [= <- <-]. exact Hhere.
    + destruct (read_lines _ _ rest st1) as [st2 log2] eqn:E2.
      intros [= <- <-] Hin.
      apply in_app_or in Hin as [Hin|[Hin|Hin]]; [eauto|discriminate|eauto].
Qed.

(** Started on the empty map, the reader leaves exactly the bytes whose
    last store the log records. *)
Lemma run_entries (startAddress bankSize : Z) (lines : list string)
    (st : state) (log : list event) (a : Z) :
  run startAddress bankSize lines initial = (st, log) ->
  memoryMap st !! a = last_store a log.
Proof.
  intros E. apply read_lines_replayed in E as [R _].
  rewrite (R a). cbn [initial memoryMap]. rewrite lookup_empty.
  now destruct (last_store a log).
Qed.

(** ** The statements of the specification *)

(** C1.  For the map the reader assembles and a window of [bankSize > 0]
    bytes at [startAddress], the image has exactly [bankSize] bytes; at
    each index [i] it holds the map's entry for [startAddress + i] when
    there is one and [0xFF] otherwise; and every entry of the map lies in
    [startAddress, startAddress + bankSize) and is a payload byte of a
    Data record of the input. *)
Theorem image_is_window_of_map (startAddress bankSize : Z) (lines : list string) :
  0 <= startAddress < 2 ^ 32 -> 0 < bankSize < 2 ^ 32 ->
  let m := memoryMap (fst (run startAddress bankSize lines initial)) in
  let buffer := image startAddress bankSize m in
  length buffer = Z.to_nat bankSize
  /\ (forall i, 0 <= i < bankSize ->
        buffer !! Z.to_nat i =
        Some (match m !! (startAddress + i) with
              | Some v => v
              | None => 0xFF
              end))
  /\ (forall a v, m !! a = Some v ->
        startAddress <= a < startAddress + bankSize
        /\ exists line base bc off k w,
             In line lines /\ candidate line = true
             /\ header line = Ok (bc, off, 0) /\ (k < Z.to_nat bc)%nat
             /\ hex_field line (9 + k * 2) 2 = Ok w /\ v = uint8 w
             /\ a = byte_address base off k).
Proof.
  intros Hs Hb.
  destruct (run startAddress bankSize lines initial) as [st log] eqn:E.
  cbn [fst]. cbn zeta.
  assert (Hin : forall a v, memoryMap st !! a = Some v ->
            In (Store a v) log
            /\ in_range startAddress (uint32 (startAddress + bankSize)) a = true).
  { intros a v Hm. rewrite (run_entries _ _ _ _ _ _ E) in Hm.
    apply last_store_in in Hm. split; [exact Hm|].
    apply read_lines_replayed in E as [_ W]. eapply W, Hm. }
  split; [apply image_length|]. split.
  - intros i Hi. destruct (build_spec startAddress bankSize (memoryMap st))
      as (_ & Hbuf & _).
    unfold image. rewrite Hbuf by lia. rewrite Z2Nat.id by lia.
    destruct (memoryMap st !! (startAddress + i)) as [v|] eqn:Hm; [|reflexivity].
    now rewrite (proj2 (Hin _ _ Hm)).
  - intros a v Hm. destruct (Hin _ _ Hm) as [Hlog Hw]. split.
    + pose proof (window_index startAddress bankSize a Hs ltac:(lia) Hw). lia.
    + eapply read_lines_store_origin; [exact E|exact Hlog].
Qed.

Lemma image_is_window_of_map_witness :
  let lines := [":020000040800F2"; ":04000000DEADBEEFC4"; ":00000001FF"]%string in
  let m := memoryMap (fst (run 0x08000000 4 lines initial)) in
  image 0x08000000 4 m = [0xDE; 0xAD; 0xBE; 0xEF]
  /\ length (image 0x08000000 4 m) = Z.to_nat 4.
Proof.
  split; [vm_compute; reflexivity|].
  apply (image_is_window_of_map 0x08000000 4
           [":020000040800F2"; ":04000000DEADBEEFC4"; ":00000001FF"]%string); lia.
Defined.

Lemma read_lines_at_terminator (startAddress endAddress : Z) (t : string)
    (post : list string) (bc off : Z) (st : state) :
  candidate t = true -> header t = Ok (bc, off, 1) ->
  read_lines startAddress endAddress (t :: post) st = (st, []).
Proof.
  intros Hc Hh. cbn [read_lines]. rewrite Hc.
  now rewrite (process_line_terminator _ _ _ _ _ _ Hh).
Qed.

Lemma read_lines_cut (startAddress endAddress : Z) (pre post : list string)
    (t : string) (bc off : Z) (st : state) :
  candidate t = true -> header t = Ok (bc, off, 1) ->
  read_lines startAddress endAddress (pre ++ t :: post) st =
  read_lines startAddress endAddress (pre ++ [t]) st.
Proof.
  intros Hc Hh. revert st. induction pre as [|line pre IH]; intros st.
  - cbn [app]. now rewrite !(read_lines_at_terminator _ _ _ _ _ _ _ Hc Hh).
  - cbn [app read_lines]. destruct (candidate line); [|apply IH].
    destruct (process_line _ _ st line) as [[st1 log1] [| |e]];
      [now rewrite IH|reflexivity|now rewrite IH].
Qed.

(** C5.  Once a Terminator record (a candidate line whose header
    converts with type [0x01]) is processed, no further line is
    interpreted: from the state in which it is reached the reader
    returns that very state with nothing logged, whatever follows; the
    state and log of a whole run, its image and the outcome of
    [main] are those of the input cut after the terminator. *)
Theorem terminator_stops_reading (startAddress bankSize : Z)
    (pre post : list string) (t : string) (bc off : Z) (st : state)
    (binWritable : bool) :
  candidate t = true -> header t = Ok (bc, off, 1) ->
  run startAddress bankSize (t :: post) st = (st, [])
  /\ run startAddress bankSize (pre ++ t :: post) st =
     run startAddress bankSize (pre ++ [t]) st
  /\ main startAddress bankSize (Some (pre ++ t :: post)) binWritable =
     main startAddress bankSize (Some (pre ++ [t])) binWritable.
Proof.
  intros Hc Hh. unfold run, main.
  rewrite !(read_lines_cut _ _ pre post t bc off _ Hc Hh).
  rewrite (read_lines_at_terminator _ _ _ _ _ _ _ Hc Hh).
  repeat split.
Qed.

Lemma terminator_stops_reading_witness :
  main 0x10 2 (Some [":0100100011DE"; ":00000001FF"; ":0100110022CC"]%string) true =
  main 0x10 2 (Some [":0100100011DE"; ":00000001FF"]%string) true
  /\ written (main 0x10 2
       (Some [":0100100011DE"; ":00000001FF"; ":0100110022CC"]%string) true)
     = Some [0x11; 0xFF].
Proof.
  split; [|vm_compute; reflexivity].
  apply (terminator_stops_reading 0x10 2 [":0100100011DE"%string]
           [":0100110022CC"%string] ":00000001FF" 0 0 initial true);
    vm_compute; reflexivity.
Defined.

(** On the log of executed stores: when two stores to the same address
    occur, first of [v1] and later of [v2], and none to that address
    after the second, the map and the image hold [v2]. *)
Lemma last_logged_store_wins (startAddress bankSize : Z) (lines : list string)
    (t1 t2 t3 : list event) (a v1 v2 : Z) :
  0 <= startAddress < 2 ^ 32 -> 0 <= bankSize < 2 ^ 32 ->
  snd (run startAddress bankSize lines initial)
    = t1 ++ Store a v1 :: t2 ++ Store a v2 :: t3 ->
  (forall w, ~ In (Store a w) t3) ->
  let m := memoryMap (fst (run startAddress bankSize lines initial)) in
  startAddress <= a < startAddress + bankSize
  /\ m !! a = Some v2
  /\ image startAddress bankSize m !! Z.to_nat (a - startAddress) = Some v2.
Proof.
  intros Hs Hb Hlog Hlast.
  destruct (run startAddress bankSize lines initial) as [st log] eqn:E.
  cbn [fst snd] in *. cbn zeta.
  assert (Hm : memoryMap st !! a = Some v2).
  { rewrite (run_entries _ _ _ _ _ _ E), Hlog.
    rewrite last_store_app. change (Store a v1 :: t2 ++ Store a v2 :: t3)
      with ((Store a v1 :: t2) ++ [Store a v2] ++ t3).
    rewrite !last_store_app, (last_store_none a t3 Hlast).
    cbn [last_store]. now rewrite Z.eqb_refl. }
  assert (Hw : in_range startAddress (uint32 (startAddress + bankSize)) a = true).
  { apply read_lines_replayed in E as [_ W]. apply (W a v2).
    rewrite Hlog. apply in_or_app. right. right. apply in_or_app. right. now left. }
  pose proof (window_index _ _ _ Hs Hb Hw).
  split; [lia|]. split; [exact Hm|].
  now apply image_entry.
Qed.

Lemma last_store_some (a v : Z) (log : list event) :
  In (Store a v) log -> exists w, last_store a log = Some w.
Proof.
  induction log as [|ev log IH]; intros Hin; [destruct Hin|].
  cbn [last_store]. destruct (last_store a log) as [w|]; [eauto|].
  destruct Hin as [->|Hin].
  - rewrite Z.eqb_refl. eauto.
  - destruct (IH Hin) as [w Hw]. discriminate.
Qed.

(** The flag [dataFoundInRange] after the population loop, read off the
    log of the reader. *)
Lemma found_iff_stored (startAddress bankSize : Z) (lines : list string)
    (st : state) (log : list event) :
  run startAddress bankSize lines initial = (st, log) ->
  snd (build startAddress (uint32 (startAddress + bankSize)) bankSize (memoryMap st))
    = true
  <-> exists a v, In (Store a v) log.
Proof.
  intros E. destruct (build_spec startAddress bankSize (memoryMap st))
    as (_ & _ & Hfound).
  rewrite Hfound. split.
  - intros (a & v & Hm & _). exists a, v.
    rewrite (run_entries _ _ _ _ _ _ E) in Hm. now apply last_store_in.
  - intros (a & v & Hin). destruct (last_store_some _ _ _ Hin) as [w Hw].
    exists a, w. split.
    + now rewrite (run_entries _ _ _ _ _ _ E).
    + apply read_lines_replayed in E as [_ W]. eapply W, Hin.
Qed.

(** The two ways [main] ends once the input is open. *)
Lemma main_no_store (startAddress bankSize : Z) (lines : list string)
    (binWritable : bool) (st : state) (log : list event) :
  run startAddress bankSize lines initial = (st, log) ->
  (forall a v, ~ In (Store a v) log) ->
  main startAddress bankSize (Some lines) binWritable =
  {| status := 1; written := None; trace := log ++ [ParsedOk; ErrNoData] |}.
Proof.
  intros E Hnone. pose proof (found_iff_stored _ _ _ _ _ E) as Hfound.
  unfold main. fold (run startAddress bankSize lines initial). rewrite E.
  destruct (build _ _ _ _) as [buf found]. cbn [fst snd] in *.
  destruct found; [|reflexivity].
  destruct (proj1 Hfound eq_refl) as (a & v & Hin). now destruct (Hnone a v).
Qed.

Lemma main_stored (startAddress bankSize : Z) (lines : list string)
    (binWritable : bool) (st : state) (log : list event) :
  run startAddress bankSize lines initial = (st, log) ->
  (exists a v, In (Store a v) log) ->
  main startAddress bankSize (Some lines) binWritable =
  let binaryData := image startAddress bankSize (memoryMap st) in
  if binWritable then
    {| status := 0; written := Some binaryData;
       trace := log ++ [ParsedOk; Created (length binaryData);
                          Hash (crc32 binaryData)] |}
  else
    {| status := 1; written := None;
       trace := log ++ [ParsedOk; ErrCreateOutput] |}.
Proof.
  intros E Hsome. pose proof (found_iff_stored _ _ _ _ _ E) as Hfound.
  unfold main, image. fold (run startAddress bankSize lines initial). rewrite E.
  destruct (build _ _ _ _) as [buf found]. cbn [fst snd] in *.
  rewrite (proj2 Hfound Hsome). now destruct binWritable.
Qed.

(** C3, as the program has it.  When the sum of start and size reaches
    or exceeds [2^32] the end address is the wrapped sum, no address
    passes the window test, the reader stores nothing, and after the
    whole input is read the run ends with status 1 on the "no data"
    diagnostic, with no file written. *)
Theorem overflow_wraps_to_no_data (startAddress bankSize : Z)
    (lines : list string) (binWritable : bool) :
  0 <= startAddress < 2 ^ 32 -> 0 <= bankSize < 2 ^ 32 ->
  2 ^ 32 <= startAddress + bankSize ->
  let log := snd (run startAddress bankSize lines initial) in
  uint32 (startAddress + bankSize) = startAddress + bankSize - 2 ^ 32
  /\ (forall a, in_range startAddress (uint32 (startAddress + bankSize)) a = false)
  /\ (forall a v, ~ In (Store a v) log)
  /\ memoryMap (fst (run startAddress bankSize lines initial)) = ∅
  /\ main startAddress bankSize (Some lines) binWritable =
     {| status := 1; written := None; trace := log ++ [ParsedOk; ErrNoData] |}.
Proof.
  intros Hs Hb Hge. cbn zeta.
  assert (Hwin : forall a,
    in_range startAddress (uint32 (startAddress + bankSize)) a = false)
    by (intros a; apply (window_wrapped startAddress bankSize a Hs Hb Hge)).
  destruct (run startAddress bankSize lines initial) as [st log] eqn:E.
  assert (Hnone : forall a v, ~ In (Store a v) log).
  { intros a v Hin. pose proof E as E'.
    apply read_lines_replayed in E' as [_ W].
    specialize (W a v Hin). now rewrite Hwin in W. }
  split; [apply (window_wrapped startAddress bankSize 0 Hs Hb Hge)|].
  split; [exact Hwin|]. split; [exact Hnone|]. split.
  - cbn [fst]. apply map_eq. intros a.
    rewrite (run_entries _ _ _ _ _ _ E), lookup_empty.
    now apply last_store_none.
  - cbn [snd]. now apply (main_no_store _ _ _ _ st).
Qed.

Lemma overflow_wraps_to_no_data_witness :
  uint32 (0xFFFFFFFF + 2) = 1
  /\ main 0xFFFFFFFF 2
       (Some [":02000004FFFFFC"; ":02FFFF00AABBA0"; ":00000001FF"]%string) true
     = {| status := 1; written := None; trace := [ParsedOk; ErrNoData] |}.
Proof.
  destruct (overflow_wraps_to_no_data 0xFFFFFFFF 2
    [":02000004FFFFFC"; ":02FFFF00AABBA0"; ":00000001FF"]%string true)
    as (Hend & _ & _ & _ & Hout); [lia|lia|lia|].
  split; [rewrite Hend; reflexivity|].
  rewrite Hout. vm_compute. reflexivity.
Defined.

(** C3, as stated, fails: with start [0xFFFFFFFF] and size [2] the sum
    exceeds [2^32], yet nothing rejects the window.  The file is read to
    its end (a malformed line draws its warning, "Successfully parsed" is
    printed), the byte a Data record supplies for address [0xFFFFFFFF]
    is dropped by the test against the wrapped end address [1], and the
    diagnostic is the one for a window without data. *)
Lemma overflow_is_not_detected :
  0xFFFFFFFF + 2 > 2 ^ 32
  /\ uint32 (0xFFFFFFFF + 2) = 1
  /\ header ":01FFFF00AA57" = Ok (1, 0xFFFF, 0)
  /\ byte_address 0xFFFF0000 0xFFFF 0 = 0xFFFFFFFF
  /\ main 0xFFFFFFFF 2
       (Some [":02000004FFFFFC"; ":zz"; ":01FFFF00AA57"]%string) true
     = {| status := 1; written := None;
          trace := [Warning ":zz" invalid_argument; ParsedOk; ErrNoData] |}.
Proof. repeat split; vm_compute; reflexivity. Qed.

(** ** Fields made of hex digits *)

Lemma hex_digit_code (c : ascii) (h : Z) :
  hex_digit c = Some h ->
  0 <= h < 16
  /\ (48 <= code c <= 57 \/ 65 <= code c <= 70 \/ 97 <= code c <= 102).
Proof.
  unfold hex_digit.
  destruct (Z.leb_spec 48 (code c)), (Z.leb_spec (code c) 57); cbn [andb];
    try (intros [= <-]; lia);
  destruct (Z.leb_spec 65 (code c)), (Z.leb_spec (code c) 70); cbn [andb];
    try (intros [= <-]; lia);
  destruct (Z.leb_spec 97 (code c)), (Z.leb_spec (code c) 102); cbn [andb];
    try (intros [= <-]; lia); discriminate.
Qed.

Lemma hex_digit_plain (c : ascii) (h : Z) :
  hex_digit c = Some h ->
  isspace c = false
  /\ (code c =? 45) = false /\ (code c =? 43) = false
  /\ (code c =? 120) = false /\ (code c =? 88) = false.
Proof.
  intros H. apply hex_digit_code in H as [_ H]. unfold isspace.
  repeat split;
    repeat match goal with
           | |- context [?a =? ?b] => destruct (Z.eqb_spec a b)
           | |- context [?a <=? ?b] => destruct (Z.leb_spec a b)
           end; cbn; try reflexivity; lia.
Qed.


(** ** The high base across lines *)

Section HighBase.

Variables startAddress endAddress : Z.

Local Abbreviation step := (process_line startAddress endAddress).
Local Abbreviation reader := (read_lines startAddress endAddress).

(** Only a type [0x01] record leaves the loop. *)
Lemma process_line_no_break (st : state) (line : string) :
  candidate line = true -> record_type line <> Some 1 ->
  snd (step st line) <> Break.
Proof.
  unfold record_type, process_line. intros -> H1.
  destruct (header line) as [[[bc off] ty]|e]; [|discriminate].
  destruct (ty =? 4); [now destruct (hex_field line 9 4)|].
  destruct (ty =? 0).
  - now destruct (data_loop _ _ _ _ _ _) as [[m' log] [e|]].
  - destruct (Z.eqb_spec ty 1) as [->|_]; [now destruct H1|discriminate].
Qed.


Lemma read_lines_step (st : state) (line : string) (rest : list string) :
  candidate line = true -> snd (step st line) <> Break ->
  fst (reader (line :: rest) st) = fst (reader rest (fst (fst (step st line)))).
Proof.
  intros Hc Hs. cbn [read_lines]. rewrite Hc.
  destruct (step st line) as [[st1 log1] sg]. cbn [fst snd] in *.
  destruct sg; [|contradiction|]; now destruct (reader rest st1).
Qed.

(** Lines without a terminator are read through to what follows. *)
Lemma read_lines_app (xs rest : list string) (st : state) :
  Forall (fun l => record_type l <> Some 1) xs ->
  reader (xs ++ rest) st =
    (let '(st1, log1) := reader xs st in
     let '(st2, log2) := reader rest st1 in
     (st2, log1 ++ log2)).
Proof.
  intros Hxs. revert st.
  induction Hxs as [|line xs H1 _ IH]; intros st.
  - cbn [app read_lines]. now destruct (reader rest st).
  - cbn [app read_lines]. destruct (candidate line) eqn:Hc; [|apply IH].
    pose proof (process_line_no_break st line Hc H1) as Hsig.
    destruct (step st line) as [[st1 log1] sg]. cbn [snd] in Hsig.
    rewrite (IH st1).
    destruct sg as [| |e]; [|contradiction|];
      destruct (reader xs st1) as [st2 log2];
      destruct (reader rest st2) as [st3 log3]; f_equal.
    + apply app_assoc.
    + now rewrite <- app_assoc.
Qed.



(** A Data record processed under the base [base]: a payload byte the
    loop reaches is stored at base plus offset plus position. *)
Lemma process_line_stores_byte (st : state) (line : string) (bc off w : Z)
    (k : nat) :
  header line = Ok (bc, off, 0) -> (k < Z.to_nat bc)%nat ->
  in_range startAddress endAddress
    (byte_address (extendedLinearAddress st) off k) = true ->
  hex_field line (9 + k * 2) 2 = Ok w ->
  payload_readable startAddress endAddress line
    (uint32 (extendedLinearAddress st + off)) 0 k ->
  memoryMap (fst (fst (step st line)))
    !! byte_address (extendedLinearAddress st) off k = Some (uint8 w)
  /\ extendedLinearAddress (fst (fst (step st line))) = extendedLinearAddress st
  /\ snd (step st line) <> Break.
Proof.
  intros Hh Hk Hw Hp Hr. pose proof (header_fields _ _ _ _ Hh) as (Hbc & _ & _).
  rewrite (process_line_data _ _ _ _ _ _ Hh). unfold data_loop.
  pose proof (data_from_committed startAddress endAddress line
    (uint32 (extendedLinearAddress st + off)) (Z.to_nat bc) 0 k (memoryMap st) w
    ltac:(lia) ltac:(lia) Hw Hp Hr) as Hm.
  destruct (data_from _ _ _ _ _ _ _) as [[m' log] r]. cbn [fst snd] in *.
  split; [exact Hm|]. split; [reflexivity|]. now destruct r.
Qed.

End HighBase.




(** C6.  Two Data records, both read before any terminator, store a
    payload byte each at the same in-window address [a]: after the first
    the map holds its byte, and when no line after the second stores to
    [a] the image holds the byte of the second, the record processed
    later. *)
Theorem last_write_wins (startAddress bankSize : Z)
    (pre mid post : list string) (first second : string)
    (bc1 off1 w1 bc2 off2 w2 a : Z) (k1 k2 : nat) :
  0 <= startAddress < 2 ^ 32 -> 0 <= bankSize < 2 ^ 32 ->
  let endAddress := uint32 (startAddress + bankSize) in
  Forall (fun l => record_type l <> Some 1) (pre ++ first :: mid) ->
  let s1 := fst (run startAddress bankSize pre initial) in
  let s2 := fst (run startAddress bankSize (pre ++ first :: mid) initial) in
  let s3 := fst (fst (process_line startAddress endAddress s2 second)) in
  in_range startAddress endAddress a = true ->
  candidate first = true -> header first = Ok (bc1, off1, 0) ->
  (k1 < Z.to_nat bc1)%nat ->
  byte_address (extendedLinearAddress s1) off1 k1 = a ->
  hex_field first (9 + k1 * 2) 2 = Ok w1 ->
  payload_readable startAddress endAddress first
    (uint32 (extendedLinearAddress s1 + off1)) 0 k1 ->
  candidate second = true -> header second = Ok (bc2, off2, 0) ->
  (k2 < Z.to_nat bc2)%nat ->
  byte_address (extendedLinearAddress s2) off2 k2 = a ->
  hex_field second (9 + k2 * 2) 2 = Ok w2 ->
  payload_readable startAddress endAddress second
    (uint32 (extendedLinearAddress s2 + off2)) 0 k2 ->
  (forall v, ~ In (Store a v) (snd (run startAddress bankSize post s3))) ->
  memoryMap (fst (run startAddress bankSize (pre ++ [first]) initial)) !! a
    = Some (uint8 w1)
  /\ image startAddress bankSize
       (memoryMap (fst (run startAddress bankSize
                          (pre ++ first :: mid ++ second :: post) initial)))
       !! Z.to_nat (a - startAddress) = Some (uint8 w2).
Proof.
  intros Hs Hb endAddress Hno1 s1 s2 s3 Ha
         Hc1 Hh1 Hk1 Ha1 Hp1 Hr1 Hc2 Hh2 Hk2 Ha2 Hp2 Hr2 Hpost.
  subst s1 s2 s3 endAddress. unfold run in *.
  assert (Hpre : Forall (fun l => record_type l <> Some 1) pre)
    by (now apply Forall_app in Hno1 as [H _]).
  split.
  - rewrite (read_lines_app _ _ pre [first] initial Hpre).
    destruct (read_lines _ _ pre initial) as [st1 log1]. cbn [fst] in Ha1, Hr1.
    rewrite <- Ha1 in Ha.
    destruct (process_line_stores_byte _ _ st1 first bc1 off1 w1 k1
                Hh1 Hk1 Ha Hp1 Hr1) as (Hm & _ & Hsig).
    pose proof (read_lines_step _ _ st1 first [] Hc1 Hsig) as Hst.
    destruct (read_lines _ _ [first] st1) as [st' log']. cbn [fst] in *.
    subst st'. now rewrite <- Ha1.
  - replace (pre ++ first :: mid ++ second :: post)
      with ((pre ++ first :: mid) ++ second :: post)
      by (now rewrite <- app_assoc).
    rewrite (read_lines_app _ _ _ (second :: post) initial Hno1).
    destruct (read_lines _ _ (pre ++ first :: mid) initial) as [st2 log2].
    cbn [fst] in *. rewrite <- Ha2 in Ha.
    destruct (process_line_stores_byte _ _ st2 second bc2 off2 w2 k2
                Hh2 Hk2 Ha Hp2 Hr2) as (Hm & _ & Hsig).
    pose proof (read_lines_step _ _ st2 second post Hc2 Hsig) as Hst.
    destruct (read_lines _ _ (second :: post) st2) as [st' log']. cbn [fst] in *.
    subst st'. rewrite Ha2 in *.
    destruct (read_lines _ _ post _) as [st4 log4] eqn:E. cbn [fst snd] in *.
    apply read_lines_replayed in E as [R _].
    apply image_entry; [exact Hs|exact Hb|exact Ha|].
    rewrite (R a), Hm. now rewrite (last_store_none a log4 Hpost).
Qed.

Lemma last_write_wins_witness :
  memoryMap (fst (run 0x10 1 [":0100100011DE"%string] initial)) !! 0x10 = Some 0x11
  /\ image 0x10 1
       (memoryMap (fst (run 0x10 1
          [":0100100011DE"; ":0100100022CD"; ":00000001FF"]%string initial)))
       !! Z.to_nat (0x10 - 0x10) = Some 0x22.
Proof.
  apply (last_write_wins 0x10 1 [] [] [":00000001FF"%string]
           ":0100100011DE" ":0100100022CD" 1 0x10 0x11 1 0x10 0x22 0x10 0 0).
  - lia.
  - lia.
  - repeat constructor. vm_compute. discriminate.
  - vm_compute; reflexivity.
  - reflexivity.
  - vm_compute; reflexivity.
  - vm_compute; lia.
  - vm_compute; reflexivity.
  - vm_compute; reflexivity.
  - intros j Hj. lia.
  - reflexivity.
  - vm_compute; reflexivity.
  - vm_compute; lia.
  - vm_compute; reflexivity.
  - vm_compute; reflexivity.
  - intros j Hj. lia.
  - intros v H. vm_compute in H. exact H.
Defined.

(** ** A window without data *)

Section Placed.

Variables startAddress endAddress : Z.

(** A logged store is of a byte the loop reached: every in-window byte
    before it converted. *)
Lemma data_from_reached (line : string) (currentAddress : Z) (n i : nat)
    (m m' : gmap Z Z) (log : list event) (r : option exn) :
  data_from startAddress endAddress line currentAddress n i m = (m', log, r) ->
  forall ev, In ev log ->
  exists k v, (i <= k < i + n)%nat
    /\ ev = Store (uint32 (currentAddress + Z.of_nat k)) (uint8 v)
    /\ in_range startAddress endAddress (uint32 (currentAddress + Z.of_nat k)) = true
    /\ hex_field line (9 + k * 2) 2 = Ok v
    /\ payload_readable startAddress endAddress line currentAddress i k.
Proof.
  revert i m m' log r. induction n as [|n IH]; intros i m m' log r; cbn [data_from].
  - intros [= <- <- <-] ev [].
  - destruct (in_range _ _ (uint32 (currentAddress + Z.of_nat i))) eqn:Hw.
    + destruct (hex_field line (9 + i * 2) 2) as [v|e] eqn:Hp;
        [|intros [= <- <- <-] ev []].
      destruct (data_from _ _ _ _ n (S i) _) as [[m1 log1] r1] eqn:E.
      intros [= <- <- <-] ev [<-|Hin].
      * exists i, v. repeat split; [lia|lia|assumption|assumption|].
        intros j Hj. lia.
      * destruct (IH _ _ _ _ _ E ev Hin) as (k & w & Hk & Hev & Hkw & Hkp & Hr).
        exists k, w. repeat split; [lia|lia|assumption|assumption|assumption|].
        intros j Hj Hjw. destruct (Nat.eq_dec j i) as [->|Hne].
        -- now rewrite Hp.
        -- apply Hr; [lia|assumption].
    + intros E ev Hin.
      destruct (IH _ _ _ _ _ E ev Hin) as (k & w & Hk & Hev & Hkw & Hkp & Hr).
      exists k, w. repeat split; [lia|lia|assumption|assumption|assumption|].
      intros j Hj Hjw. destruct (Nat.eq_dec j i) as [->|Hne].
      -- congruence.
      -- apply Hr; [lia|assumption].
Qed.

Lemma process_line_reached (st st' : state) (line : string)
    (log : list event) (sg : signal) (a v : Z) :
  process_line startAddress endAddress st line = (st', log, sg) ->
  In (Store a v) log ->
  exists bc off k w,
    header line = Ok (bc, off, 0) /\ (k < Z.to_nat bc)%nat
    /\ a = byte_address (extendedLinearAddress st) off k
    /\ in_range startAddress endAddress a = true
    /\ hex_field line (9 + k * 2) 2 = Ok w /\ v = uint8 w
    /\ payload_readable startAddress endAddress line
         (uint32 (extendedLinearAddress st + off)) 0 k.
Proof.
  unfold process_line.
  destruct (header line) as [[[bc off] ty]|e]; [|intros [= <- <- <-] []].
  destruct (ty =? 4).
  { destruct (hex_field line 9 4); intros [= <- <- <-] []. }
  destruct (Z.eqb_spec ty 0) as [->|_].
  - unfold data_loop.
    destruct (data_from _ _ _ _ _ _ _) as [[m' log'] r] eqn:E.
    intros [= <- <- <-] Hin.
    destruct (data_from_reached _ _ _ _ _ _ _ _ E _ Hin)
      as (k & w & Hk & [= -> ->] & Hw & Hp & Hr).
    exists bc, off, k, w. repeat split; try assumption. lia.
  - destruct (ty =? 1); intros [= <- <- <-] [].
Qed.

(** A line after which the reader goes on is no terminator. *)
Lemma process_line_goes_on (st : state) (line : string) :
  snd (process_line startAddress endAddress st line) <> Break ->
  record_type line <> Some 1.
Proof.
  unfold record_type, process_line. destruct (candidate line); [|discriminate].
  destruct (header line) as [[[bc off] ty]|e]; [|discriminate].
  destruct (Z.eqb_spec ty 4) as [->|_]; [discriminate|].
  destruct (Z.eqb_spec ty 0) as [->|_]; [discriminate|].
  destruct (Z.eqb_spec ty 1) as [->|H1]; [intros H; now destruct H|].
  intros _ [= ->]. now destruct H1.
Qed.

Lemma read_lines_reached (lines : list string) (st st' : state)
    (log : list event) (a v : Z) :
  read_lines startAddress endAddress lines st = (st', log) ->
  In (Store a v) log ->
  exists pre data post bc off k w,
    lines = pre ++ data :: post
    /\ Forall (fun l => record_type l <> Some 1) pre
    /\ candidate data = true /\ header data = Ok (bc, off, 0)
    /\ (k < Z.to_nat bc)%nat
    /\ let base :=
         extendedLinearAddress
           (fst (read_lines startAddress endAddress pre st)) in
       a = byte_address base off k
       /\ in_range startAddress endAddress a = true
       /\ hex_field data (9 + k * 2) 2 = Ok w /\ v = uint8 w
       /\ payload_readable startAddress endAddress data (uint32 (base + off)) 0 k.
Proof.
  revert st st' log. induction lines as [|line rest IH]; intros st st' log.
  - cbn [read_lines]. intros [= <- <-] [].
  - assert (Hrest : forall st1 st2 log2,
      record_type line <> Some 1 ->
      (forall pre, fst (read_lines startAddress endAddress (line :: pre) st) =
                   fst (read_lines startAddress endAddress pre st1)) ->
      read_lines startAddress endAddress rest st1 = (st2, log2) ->
      In (Store a v) log2 ->
      exists pre data post bc off k w,
        line :: rest = pre ++ data :: post
        /\ Forall (fun l => record_type l <> Some 1) pre
        /\ candidate data = true /\ header data = Ok (bc, off, 0)
        /\ (k < Z.to_nat bc)%nat
        /\ let base :=
             extendedLinearAddress
               (fst (read_lines startAddress endAddress pre st)) in
           a = byte_address base off k
           /\ in_range startAddress endAddress a = true
           /\ hex_field data (9 + k * 2) 2 = Ok w /\ v = uint8 w
           /\ payload_readable startAddress endAddress data
                (uint32 (base + off)) 0 k).
    { intros st1 st2 log2 H1 Hst E2 Hin.
      destruct (IH _ _ _ E2 Hin)
        as (pre & data & post & bc & off & k & w & -> & Hpre & H).
      exists (line :: pre), data, post, bc, off, k, w.
      split; [reflexivity|]. split; [now constructor|].
      cbn zeta in *. now rewrite Hst. }
    cbn [read_lines]. destruct (candidate line) eqn:Hc.
    2: { intros E2 Hin. apply (Hrest st st' log); try assumption.
         - unfold record_type. now rewrite Hc.
         - intros pre. cbn [read_lines]. now rewrite Hc. }
    destruct (process_line _ _ st line) as [[st1 log1] sg] eqn:E1.
    assert (Hhere : In (Store a v) log1 ->
      exists pre data post bc off k w,
        line :: rest = pre ++ data :: post
        /\ Forall (fun l => record_type l <> Some 1) pre
        /\ candidate data = true /\ header data = Ok (bc, off, 0)
        /\ (k < Z.to_nat bc)%nat
        /\ let base :=
             extendedLinearAddress
               (fst (read_lines startAddress endAddress pre st)) in
           a = byte_address base off k
           /\ in_range startAddress endAddress a = true
           /\ hex_field data (9 + k * 2) 2 = Ok w /\ v = uint8 w
           /\ payload_readable startAddress endAddress data
                (uint32 (base + off)) 0 k).
    { intros Hin.
      destruct (process_line_reached _ _ _ _ _ _ _ E1 Hin)
        as (bc & off & k & w & H).
      exists [], line, rest, bc, off, k, w.
      split; [reflexivity|]. split; [constructor|]. split; [exact Hc|exact H]. }
    assert (Hon : sg <> Break ->
      record_type line <> Some 1
      /\ forall pre, fst (read_lines startAddress endAddress (line :: pre) st) =
                     fst (read_lines startAddress endAddress pre st1)).
    { intros Hsg. split.
      - apply (process_line_goes_on st). now rewrite E1.
      - intros pre. cbn [read_lines]. rewrite Hc, E1.
        destruct sg; [|contradiction|];
          now destruct (read_lines _ _ pre st1). }
    destruct sg as [| |e].
    + destruct (read_lines _ _ rest st1) as [st2 log2] eqn:E2.
      intros [= <- <-] Hin. apply in_app_or in Hin as [Hin|Hin]; [auto|].
      destruct Hon as [H1 Hst]; [discriminate|].
      apply (Hrest st1 st2 log2); auto.
    + intros [= <- <-]. exact Hhere.
    + destruct (read_lines _ _ rest st1) as [st2 log2] eqn:E2.
      intros [= <- <-] Hin.
      apply in_app_or in Hin as [Hin|[Hin|Hin]]; [auto|discriminate|].
      destruct Hon as [H1 Hst]; [discriminate|].
      apply (Hrest st1 st2 log2); auto.
Qed.

End Placed.

(** Every store the reader executes is of a parsed byte in the
    requested window. *)
Lemma store_is_placed (startAddress bankSize : Z) (lines : list string)
    (a v : Z) :
  0 <= startAddress < 2 ^ 32 -> 0 <= bankSize < 2 ^ 32 ->
  In (Store a v) (snd (run startAddress bankSize lines initial)) ->
  places startAddress bankSize lines a v.
Proof.
  intros Hs Hb Hin.
  destruct (run startAddress bankSize lines initial) as [st log] eqn:E.
  cbn [snd] in Hin. unfold run in E.
  destruct (read_lines_reached _ _ _ _ _ _ _ _ E Hin)
    as (pre & data & post & bc & off & k & w & Hl & Hpre & Hc & Hh & Hk & H).
  cbn zeta in H. destruct H as (Ha & Hw & Hp & Hv & Hr).
  assert (Hlt : startAddress + bankSize < 2 ^ 32).
  { destruct (Z_lt_le_dec (startAddress + bankSize) (2 ^ 32)) as [H|H]; [exact H|].
    destruct (window_wrapped startAddress bankSize a Hs Hb H) as [_ Hf].
    congruence. }
  exists pre, data, post, bc, off, k, w.
  split; [exact Hl|]. split; [exact Hpre|]. split; [exact Hc|].
  split; [exact Hh|]. split; [exact Hk|]. cbn zeta. unfold run.
  split; [exact Ha|]. split.
  { now apply (window_exact startAddress bankSize a). }
  split; [exact Hp|]. split; [exact Hv|].
  intros j Hj Hjw. apply (Hr j); [lia|].
  apply (window_exact startAddress bankSize); [lia|lia|exact Hlt|exact Hjw].
Qed.

(** Without wrap-around of the end address, a parsed byte in the
    requested window is stored. *)
Lemma placed_is_stored (startAddress bankSize : Z) (lines : list string)
    (a v : Z) :
  0 <= startAddress -> 0 <= bankSize -> startAddress + bankSize < 2 ^ 32 ->
  places startAddress bankSize lines a v ->
  exists v', In (Store a v') (snd (run startAddress bankSize lines initial)).
Proof.
  intros Hs Hb Hlt
    (pre & data & post & bc & off & k & w & -> & Hpre & Hc & Hh & Hk & H).
  cbn zeta in H. destruct H as (Ha & Hw & Hp & Hv & Hr).
  assert (Hno1 : Forall (fun l => record_type l <> Some 1) (pre ++ [data])).
  { apply Forall_app. split; [exact Hpre|]. constructor; [|constructor].
    unfold record_type. rewrite Hc, Hh. discriminate. }
  unfold run in *.
  replace (pre ++ data :: post) with ((pre ++ [data]) ++ post)
    by (now rewrite <- app_assoc).
  rewrite (read_lines_app _ _ _ post initial Hno1).
  destruct (read_lines _ _ (pre ++ [data]) initial) as [st1 log1] eqn:E1.
  destruct (read_lines _ _ post st1) as [st2 log2]. cbn [snd].
  assert (Hm : memoryMap st1 !! a = Some (uint8 w)).
  { rewrite (read_lines_app _ _ pre [data] initial Hpre) in E1.
    destruct (read_lines _ _ pre initial) as [st0 log0]. cbn [fst] in *.
    destruct (process_line_stores_byte startAddress
                (uint32 (startAddress + bankSize)) st0 data bc off w k Hh Hk)
      as (Hm & _ & Hsig).
    - rewrite <- Ha. now apply (window_exact startAddress bankSize a).
    - exact Hp.
    - intros j Hj Hjw. apply Hr; [lia|].
      now apply (window_exact startAddress bankSize) in Hjw.
    - pose proof (read_lines_step _ _ st0 data [] Hc Hsig) as Hst.
      destruct (read_lines _ _ [data] st0) as [st' log'].
      injection E1 as <- _. cbn [fst read_lines] in Hst. rewrite Hst, Ha.
      exact Hm. }
  fold (run startAddress bankSize (pre ++ [data]) initial) in E1.
  rewrite (run_entries _ _ _ _ _ a E1) in Hm. apply last_store_in in Hm.
  exists (uint8 w). apply in_or_app. now left.
Qed.

(** C7, as the program has it.  When no parsed byte falls in
    [startAddress, startAddress + bankSize), [main] ends with status 1
    after the "no data" diagnostic and hands nothing to the output.
    When [startAddress + bankSize] is below [2^32] and some parsed byte
    falls in that window, the run gets past the check: with the output
    stream open it ends with status 0 and hands over the
    [bankSize]-byte image, in which every position without an entry
    holds [0xFF]; with the output not open it fails on the output path.
    When the sum reaches [2^32] the run ends on "no data" whatever the
    input holds. *)
Theorem no_data_in_window_fails (startAddress bankSize : Z)
    (lines : list string) (binWritable : bool) :
  0 <= startAddress < 2 ^ 32 -> 0 <= bankSize < 2 ^ 32 ->
  let st := fst (run startAddress bankSize lines initial) in
  let log := snd (run startAddress bankSize lines initial) in
  let binaryData := image startAddress bankSize (memoryMap st) in
  let out := main startAddress bankSize (Some lines) binWritable in
  ((forall a v, ~ places startAddress bankSize lines a v) ->
     status out = 1 /\ written out = None
     /\ trace out = log ++ [ParsedOk; ErrNoData])
  /\ (startAddress + bankSize < 2 ^ 32 ->
      (exists a v, places startAddress bankSize lines a v) ->
      (binWritable = true ->
         status out = 0 /\ written out = Some binaryData
         /\ trace out = log ++ [ParsedOk; Created (Z.to_nat bankSize);
                                Hash (crc32 binaryData)])
      /\ (binWritable = false ->
            status out = 1 /\ written out = None
            /\ trace out = log ++ [ParsedOk; ErrCreateOutput])
      /\ length binaryData = Z.to_nat bankSize
      /\ forall i, 0 <= i < bankSize ->
           memoryMap st !! (startAddress + i) = None ->
           binaryData !! Z.to_nat i = Some 0xFF)
  /\ (2 ^ 32 <= startAddress + bankSize ->
      status out = 1 /\ written out = None
      /\ trace out = log ++ [ParsedOk; ErrNoData]).
Proof.
  intros Hs Hb. cbn zeta.
  pose proof (fun a v => store_is_placed startAddress bankSize lines a v Hs Hb)
    as Hplaced.
  pose proof (placed_is_stored startAddress bankSize lines) as Hstored.
  destruct (run startAddress bankSize lines initial) as [st log] eqn:E.
  cbn [fst snd] in *. split; [|split].
  - intros Hnone. rewrite (main_no_store _ _ _ _ _ _ E); [now cbn|].
    intros a v Hin. exact (Hnone a v (Hplaced a v Hin)).
  - intros Hlt (a & v & Hp).
    assert (Hsome : exists a v, In (Store a v) log).
    { destruct (Hstored a v) as [v' Hin]; try assumption; try lia. eauto. }
    rewrite (main_stored _ _ _ _ _ _ E Hsome). cbn zeta.
    pose proof (image_length startAddress bankSize (memoryMap st)) as Hlen.
    split; [intros ->; cbn; now rewrite Hlen|].
    split; [now intros ->|]. split; [exact Hlen|].
    intros i Hi Hm.
    destruct (build_spec startAddress bankSize (memoryMap st)) as (_ & Hbuf & _).
    unfold image. rewrite Hbuf by lia. rewrite Z2Nat.id by lia. now rewrite Hm.
  - intros Hge. rewrite (main_no_store _ _ _ _ _ _ E); [now cbn|].
    intros a v Hin. pose proof E as E'.
    apply read_lines_replayed in E' as [_ W]. specialize (W a v Hin).
    destruct (window_wrapped startAddress bankSize a Hs Hb Hge) as [_ Hf].
    congruence.
Qed.

Lemma no_data_in_window_fails_witness :
  status (main 0x08000000 0x10
            (Some [":020000040800F2"; ":04002000DEADBEEFC4"; ":00000001FF"]%string)
            true) = 1
  /\ written (main 0x08000000 0x10
            (Some [":020000040800F2"; ":04002000DEADBEEFC4"; ":00000001FF"]%string)
            true) = None
  /\ status (main 0x08000000 6
            (Some [":020000040800F2"; ":04000000DEADBEEFC4"; ":00000001FF"]%string)
            true) = 0
  /\ written (main 0x08000000 6
            (Some [":020000040800F2"; ":04000000DEADBEEFC4"; ":00000001FF"]%string)
            true) = Some [0xDE; 0xAD; 0xBE; 0xEF; 0xFF; 0xFF].
Proof.
  destruct (no_data_in_window_fails 0x08000000 0x10
    [":020000040800F2"; ":04002000DEADBEEFC4"; ":00000001FF"]%string true
    ltac:(lia) ltac:(lia)) as (H1 & _ & _).
  destruct (no_data_in_window_fails 0x08000000 6
    [":020000040800F2"; ":04000000DEADBEEFC4"; ":00000001FF"]%string true
    ltac:(lia) ltac:(lia)) as (_ & H2 & _).
  destruct H1 as (S1 & W1 & _).
  { intros a v
      (pre & data & post & bc & off & k & w & Hl & _ & _ & Hh & Hk & Ha & Hw & _).
    destruct pre as [|p1 [|p2 [|p3 pre]]]; cbn [app] in Hl.
    - injection Hl as <- _. vm_compute in Hh. discriminate.
    - injection Hl as <- <- _. vm_compute in Hh. injection Hh as <- <-.
      destruct k as [|[|[|[|k]]]]; [..|cbn in Hk; lia];
        vm_compute in Ha; subst a; lia.
    - injection Hl as <- <- <- _. vm_compute in Hh. discriminate.
    - injection Hl as _ _ _ Hl. now destruct pre. }
  destruct H2 as (H2 & _); [lia| |].
  { exists 0x08000000, 0xDE.
    exists [":020000040800F2"%string], ":04000000DEADBEEFC4"%string,
           [":00000001FF"%string], 4, 0, 0%nat, 0xDE.
    split; [reflexivity|]. split; [repeat constructor; vm_compute; discriminate|].
    split; [reflexivity|]. split; [vm_compute; reflexivity|].
    split; [vm_compute; lia|]. cbn zeta.
    split; [vm_compute; reflexivity|]. split; [lia|].
    split; [vm_compute; reflexivity|]. split; [reflexivity|].
    intros j Hj. lia. }
  destruct (H2 eq_refl) as (S2 & W2 & _).
  split; [exact S1|]. split; [exact W1|]. split; [exact S2|].
  rewrite W2. vm_compute. reflexivity.
Defined.

(** C7, as stated, fails: with start [0xFFFFFFFF] and size [1] the
    window is the one address [0xFFFFFFFF].  The Data record
    [:01FFFF00AA57], read under the base [0xFFFF0000], has its byte
    [0xAA] at exactly that address, so a parsed byte falls in the
    window; yet the end address wraps to [0], the byte fails the test
    [byteAddress < endAddress], and the run ends with status 1 on the
    "no data" diagnostic. *)
Lemma window_ending_at_the_top_is_missed :
  places 0xFFFFFFFF 1 [":02000004FFFFFC"; ":01FFFF00AA57"]%string 0xFFFFFFFF 0xAA
  /\ extendedLinearAddress
       (fst (run 0xFFFFFFFF 1 [":02000004FFFFFC"%string] initial)) = 0xFFFF0000
  /\ header ":01FFFF00AA57" = Ok (1, 0xFFFF, 0)
  /\ byte_address 0xFFFF0000 0xFFFF 0 = 0xFFFFFFFF
  /\ hex_field ":01FFFF00AA57" 9 2 = Ok 0xAA
  /\ 0xFFFFFFFF <= 0xFFFFFFFF < 0xFFFFFFFF + 1
  /\ uint32 (0xFFFFFFFF + 1) = 0
  /\ in_range 0xFFFFFFFF (uint32 (0xFFFFFFFF + 1)) 0xFFFFFFFF = false
  /\ main 0xFFFFFFFF 1
       (Some [":02000004FFFFFC"; ":01FFFF00AA57"]%string) true
     = {| status := 1; written := None; trace := [ParsedOk; ErrNoData] |}.
Proof.
  split.
  { exists [":02000004FFFFFC"%string], ":01FFFF00AA57"%string, [],
           1, 0xFFFF, 0%nat, 0xAA.
    split; [reflexivity|]. split; [repeat constructor; vm_compute; discriminate|].
    split; [reflexivity|]. split; [vm_compute; reflexivity|].
    split; [vm_compute; lia|]. cbn zeta.
    split; [vm_compute; reflexivity|]. split; [lia|].
    split; [vm_compute; reflexivity|]. split; [reflexivity|].
    intros j Hj. lia. }
  repeat split; try (vm_compute; reflexivity); lia.
Qed.

(** ** Parse failures *)

Section Failures.

Variables startAddress endAddress : Z.

Local Abbreviation step := (process_line startAddress endAddress).
Local Abbreviation reader := (read_lines startAddress endAddress).

(** A line is left through the [catch] exactly when one of the
    conversions performed on it throws. *)
Lemma process_line_caught_iff (st : state) (line : string) (e : exn) :
  snd (step st line) = Caught e
  <-> throws startAddress endAddress (extendedLinearAddress st) line e.
Proof.
  unfold throws. split.
  - unfold process_line.
    destruct (header line) as [[[bc off] ty]|e'] eqn:Hh; [|intros [= ->]; now left].
    intros H. right. revert H. destruct (Z.eqb_spec ty 4) as [->|_].
    { destruct (hex_field line 9 4) as [u|e'] eqn:Hu; [discriminate|].
      intros [= ->]. left. eauto. }
    destruct (Z.eqb_spec ty 0) as [->|_].
    { unfold data_loop.
      destruct (data_from _ _ _ _ _ _ _) as [[m' log] r] eqn:E. cbn [snd].
      destruct r as [e'|]; [|discriminate]. intros [= ->].
      pose proof (data_from_signal _ _ _ _ _ _ _ _ _ _ E)
        as (k & Hk & Hw & Hp & Hr).
      right. exists bc, off, k. repeat split; [lia|exact Hw|exact Hp|exact Hr]. }
    destruct (ty =? 1); discriminate.
  - intros [Hh|[(bc & off & Hh & Hu)|(bc & off & k & Hh & Hk & Hw & Hp & Hr)]].
    + now rewrite (process_line_header_throws _ _ _ _ _ Hh).
    + now rewrite (process_line_high_address _ _ _ _ _ _ Hh), Hu.
    + rewrite (process_line_data _ _ _ _ _ _ Hh). unfold data_loop.
      pose proof (data_from_throws startAddress endAddress line
        (uint32 (extendedLinearAddress st + off)) (Z.to_nat bc) 0 k (memoryMap st) e
        ltac:(lia) Hw Hp Hr) as Hs.
      destruct (data_from _ _ _ _ _ _ _) as [[m' log] r]. cbn [snd] in *.
      now rewrite Hs.
Qed.

(** After a caught exception the loop goes on with the next line. *)
Lemma read_lines_caught (st : state) (line : string) (rest : list string)
    (e : exn) :
  candidate line = true -> snd (step st line) = Caught e ->
  reader (line :: rest) st =
  (fst (reader rest (fst (fst (step st line)))),
   snd (fst (step st line))
     ++ Warning line e :: snd (reader rest (fst (fst (step st line))))).
Proof.
  intros Hc Hs. cbn [read_lines]. rewrite Hc.
  destruct (step st line) as [[st1 log1] sg]. cbn [fst snd] in *. subst sg.
  now destruct (reader rest st1).
Qed.

(** The Data loop reads nothing of a line but the payload bytes whose
    address passes the window test. *)
Lemma data_from_agree (line line' : string) (currentAddress : Z) (n i : nat)
    (m : gmap Z Z) :
  (forall k, (i <= k < i + n)%nat ->
     in_range startAddress endAddress (uint32 (currentAddress + Z.of_nat k)) = true ->
     hex_field line (9 + k * 2) 2 = hex_field line' (9 + k * 2) 2) ->
  data_from startAddress endAddress line currentAddress n i m =
  data_from startAddress endAddress line' currentAddress n i m.
Proof.
  revert i m. induction n as [|n IH]; intros i m Hsame; [reflexivity|].
  cbn [data_from].
  destruct (in_range _ _ _) eqn:Hw.
  - rewrite <- (Hsame i ltac:(lia) Hw).
    destruct (hex_field line (9 + i * 2) 2); [|reflexivity].
    rewrite IH; [reflexivity|]. intros k Hk. apply Hsame. lia.
  - apply IH. intros k Hk. apply Hsame. lia.
Qed.

End Failures.

(** ** When a conversion throws *)

Lemma digits_mono (s : string) (acc : Z) (n : nat) :
  (n <= snd (digits acc n s))%nat.
Proof.
  revert acc n. induction s as [|c r IH]; intros acc n; cbn [digits snd]; [lia|].
  destruct (hex_digit c) as [d|]; cbn [snd]; [|lia].
  specialize (IH (acc * 16 + d) (S n)). lia.
Qed.

Lemma digits_bound (s : string) (acc : Z) (n : nat) :
  0 <= acc ->
  0 <= fst (digits acc n s) < (acc + 1) * 16 ^ Z.of_nat (String.length s).
Proof.
  revert acc n. induction s as [|c r IH]; intros acc n Hacc;
    cbn [digits fst String.length].
  - change (16 ^ Z.of_nat 0) with 1. lia.
  - rewrite Nat2Z.inj_succ, Z.pow_succ_r by lia.
    assert (HP : 0 < 16 ^ Z.of_nat (String.length r)) by (apply Z.pow_pos_nonneg; lia).
    destruct (hex_digit c) as [d|] eqn:Hd; cbn [fst]; [|nia].
    apply hex_digit_code in Hd as [Hd _].
    specialize (IH (acc * 16 + d) (S n) ltac:(lia)). nia.
Qed.

Lemma digits_none_iff (s : string) :
  snd (digits 0 0 s) = 0%nat <-> head_is_digit s = false.
Proof.
  destruct s as [|c r]; cbn [digits head_is_digit snd]; [easy|].
  destruct (hex_digit c) as [d|] eqn:Hd.
  - pose proof (digits_mono r (0 * 16 + d) 1) as Hm.
    rewrite bool_decide_eq_false. split; [lia|]. intros Hno. destruct Hno. eauto.
  - cbn [snd]. rewrite bool_decide_eq_false. split; [|easy].
    intros _ [d Hd']. discriminate.
Qed.

Lemma skip_0x_head (s : string) :
  head_is_digit (skip_0x s) = head_is_digit s
  /\ (String.length (skip_0x s) <= String.length s)%nat.
Proof.
  destruct s as [|z [|x [|d r]]]; try (split; [reflexivity|cbn; lia]).
  unfold skip_0x.
  destruct ((code z =? 48) && ((code x =? 120) || (code x =? 88))
            && bool_decide (is_Some (hex_digit d))) eqn:E;
    [|split; [reflexivity|lia]].
  apply andb_true_iff in E as [E Hd]. apply andb_true_iff in E as [Hz _].
  apply Z.eqb_eq in Hz. split; [|cbn [String.length]; lia].
  cbn [head_is_digit]. rewrite Hd. symmetry. apply bool_decide_eq_true.
  unfold hex_digit. rewrite Hz. cbn. eauto.
Qed.

Lemma skip_space_length (s : string) :
  (String.length (skip_space s) <= String.length s)%nat.
Proof.
  induction s as [|c r IH]; cbn [skip_space String.length]; [lia|].
  destruct (isspace c); cbn [String.length]; lia.
Qed.

Lemma take_sign_length (s : string) :
  (String.length (snd (take_sign s)) <= String.length s)%nat.
Proof.
  destruct s as [|c r]; cbn [take_sign snd String.length]; [lia|].
  destruct (code c =? 45); [cbn [snd]; lia|].
  destruct (code c =? 43); cbn [snd String.length]; lia.
Qed.

(** [stoi16] throws [invalid_argument] exactly when no hex digit leads;
    on at most seven characters it throws nothing else. *)
Lemma stoi16_leading_digit (s : string) :
  (leading_digit s = false -> stoi16 s = Throw invalid_argument)
  /\ (leading_digit s = true -> (String.length s <= 7)%nat ->
      exists v, stoi16 s = Ok v).
Proof.
  unfold leading_digit, stoi16.
  pose proof (take_sign_length (skip_space s)) as L1.
  pose proof (skip_space_length s) as L0.
  destruct (take_sign (skip_space s)) as [neg s1]. cbn [snd] in *.
  destruct (skip_0x_head s1) as [Hhead L2].
  pose proof (digits_none_iff (skip_0x s1)) as Hnone. rewrite Hhead in Hnone.
  pose proof (digits_bound (skip_0x s1) 0 0 ltac:(lia)) as Hb.
  destruct (digits 0 0 (skip_0x s1)) as [v n]. cbn [fst snd] in *. split.
  - intros H. apply Hnone in H. now subst n.
  - intros H Hlen. destruct n as [|n]; [rewrite (proj1 Hnone eq_refl) in H; discriminate|].
    cbn [Nat.eqb].
    assert (Hv : 0 <= v < 16 ^ 7).
    { split; [lia|]. eapply Z.lt_le_trans; [apply Hb|].
      rewrite Z.mul_1_l. apply Z.pow_le_mono_r; lia. }
    unfold INT_MIN, INT_MAX.
    destruct neg;
      match goal with
      | |- context [(?a <? ?b) || (?c <? ?d)] =>
          destruct (Z.ltb_spec a b); [lia|]; destruct (Z.ltb_spec c d); [lia|]
      end; cbn [orb]; eauto.
Qed.

Lemma substring_length (s : string) (pos n : nat) :
  (String.length (String.substring pos n s) <= n)%nat.
Proof.
  revert pos n. induction s as [|c r IH]; intros pos n.
  - destruct pos, n; cbn; lia.
  - destruct pos as [|pos].
    + destruct n as [|n]; cbn [String.substring String.length]; [lia|].
      specialize (IH 0%nat n). lia.
    + cbn [String.substring]. apply IH.
Qed.

(** A field of at most seven characters converts unless it is
    unreadable. *)
Lemma hex_field_unreadable (line : string) (pos n : nat) :
  (n <= 7)%nat ->
  unreadable line pos n <-> exists e, hex_field line pos n = Throw e.
Proof.
  intros Hn. unfold unreadable, hex_field, substr.
  destruct (Nat.ltb_spec (String.length line) pos) as [Hlt|Hge]; cbn [bind].
  - split; eauto.
  - pose proof (substring_length line pos n) as Hlen.
    destruct (stoi16_leading_digit (String.substring pos n line)) as [Hno Hyes].
    destruct (leading_digit (String.substring pos n line)).
    + destruct (Hyes eq_refl ltac:(lia)) as [v ->].
      split; [intros [?|?]; [lia|discriminate]|intros [e ?]; discriminate].
    + rewrite (Hno eq_refl). split; eauto.
Qed.

Lemma header_unreadable (line : string) :
  unreadable line 1 2 \/ unreadable line 3 4 \/ unreadable line 7 2
  <-> exists e, header line = Throw e.
Proof.
  rewrite !hex_field_unreadable by lia. unfold header, bind.
  destruct (hex_field line 1 2) as [a|e1]; [|split; eauto].
  destruct (hex_field line 3 4) as [b|e2]; [|split; eauto].
  destruct (hex_field line 7 2) as [c|e3]; [|split; eauto].
  split; [|intros [e ?]; discriminate].
  intros [[e ?]|[[e ?]|[e ?]]]; discriminate.
Qed.

Section Malformed.

Variables startAddress endAddress : Z.

(** The Data loop throws as soon as one in-window payload byte does not
    convert. *)
Lemma data_from_some_throw (line : string) (currentAddress : Z) (n i k : nat)
    (m : gmap Z Z) :
  (i <= k < i + n)%nat ->
  in_range startAddress endAddress (uint32 (currentAddress + Z.of_nat k)) = true ->
  is_ok (hex_field line (9 + k * 2) 2) = false ->
  exists e, snd (data_from startAddress endAddress line currentAddress n i m) = Some e.
Proof.
  intros Hk Hw Hp.
  destruct (data_from _ _ _ _ _ _ _) as [[m' log] r] eqn:E. cbn [snd].
  destruct r as [e|]; [eauto|].
  pose proof (data_from_signal _ _ _ _ _ _ _ _ _ _ E k Hk Hw) as Hok.
  congruence.
Qed.

(** A line is left through the [catch] exactly when a field the reader
    converts on it is unreadable. *)
Lemma process_line_malformed (st : state) (line : string) :
  malformed startAddress endAddress (extendedLinearAddress st) line
  <-> exists e, snd (process_line startAddress endAddress st line) = Caught e.
Proof.
  split.
  - intros [H|[H|[H|[(bc & off & Hh & Hu)|(bc & off & k & Hh & Hk & Hw & Hu)]]]].
    1-3: (assert (Hhead : exists e, header line = Throw e)
            by (apply header_unreadable; tauto);
          destruct Hhead as [e He]; exists e;
          now rewrite (process_line_header_throws _ _ _ _ _ He)).
    + apply hex_field_unreadable in Hu as [e He]; [|lia]. exists e.
      now rewrite (process_line_high_address _ _ _ _ _ _ Hh), He.
    + apply hex_field_unreadable in Hu as [e He]; [|lia].
      rewrite (process_line_data _ _ _ _ _ _ Hh). unfold data_loop.
      destruct (data_from_some_throw line
        (uint32 (extendedLinearAddress st + off)) (Z.to_nat bc) 0 k (memoryMap st)
        ltac:(lia) Hw ltac:(now rewrite He)) as [e' He'].
      destruct (data_from _ _ _ _ _ _ _) as [[m' log] r]. cbn [snd] in *.
      subst r. eauto.
  - intros [e He]. apply process_line_caught_iff in He.
    destruct He as [Hh|[(bc & off & Hh & Hu)|(bc & off & k & Hh & Hk & Hw & Hp & _)]].
    + assert (Hhead : exists e, header line = Throw e) by eauto.
      apply header_unreadable in Hhead. unfold malformed. tauto.
    + right. right. right. left. exists bc, off. split; [exact Hh|].
      apply hex_field_unreadable; [lia|eauto].
    + right. right. right. right. exists bc, off, k.
      repeat split; [exact Hh|lia|exact Hw|].
      apply hex_field_unreadable; [lia|eauto].
Qed.

End Malformed.

(** C8, as stated, fails.  The payload field [1G] holds a character that
    is no hex digit, and the second line declares two payload bytes and
    carries one; with the window [0x10, 0x11) both are read without any
    parse failure: the conversion takes the leading [1] and ignores the
    [G], and the missing byte lies outside the window and is never
    looked at. *)
Lemma malformed_line_is_accepted :
  candidate ":010010001G" = true
  /\ Format.fields_well_formed ":010010001G" = false
  /\ snd (process_line 0x10 0x11 initial ":010010001G") = Next
  /\ candidate ":0200100041" = true
  /\ Format.fields_well_formed ":0200100041" = false
  /\ snd (process_line 0x10 0x11 initial ":0200100041") = Next
  /\ snd (read_lines 0x10 0x11 [":010010001G"; ":0200100041"]%string initial)
     = [Store 0x10 1; Store 0x10 0x41].
Proof. repeat split; vm_compute; reflexivity. Qed.

(** C8, as the program has it.  When a field the reader converts on a
    candidate line (byte count, offset or type, the address field of a
    type [0x04] record, or a payload byte of a Data record whose address
    passes the window test) starts beyond the end of the line or does
    not begin with a hex digit, the line is left through the [catch]:
    a warning naming the line is logged after the stores already made,
    and the reader goes on with the next line. *)
Theorem parse_failure_is_recoverable (startAddress endAddress : Z)
    (st : state) (line : string) (rest : list string) :
  candidate line = true ->
  malformed startAddress endAddress (extendedLinearAddress st) line ->
  let after := process_line startAddress endAddress st line in
  exists e,
    snd after = Caught e
    /\ read_lines startAddress endAddress (line :: rest) st =
       (fst (read_lines startAddress endAddress rest (fst (fst after))),
        snd (fst after)
          ++ Warning line e
          :: snd (read_lines startAddress endAddress rest (fst (fst after)))).
Proof.
  intros Hc Hm after.
  apply process_line_malformed in Hm as [e He]. exists e.
  split; [exact He|]. now apply read_lines_caught.
Qed.

Lemma parse_failure_is_recoverable_witness :
  snd (read_lines 0x10 0x12 [":0200100041"; ":0100110022CC"]%string initial)
  = [Store 0x10 0x41; Warning ":0200100041" invalid_argument; Store 0x11 0x22].
Proof.
  destruct (parse_failure_is_recoverable 0x10 0x12 initial ":0200100041"
              [":0100110022CC"%string] eq_refl) as (e & Hsig & Hrun).
  - right. right. right. right. exists 2, 0x10, 1%nat.
    split; [vm_compute; reflexivity|]. split; [vm_compute; lia|].
    split; [vm_compute; reflexivity|]. right. reflexivity.
  - rewrite Hrun. vm_compute in Hsig. injection Hsig as <-.
    vm_compute. reflexivity.
Defined.

(** C9, as stated, fails.  With the window [0x10, 0x11) the second
    payload byte of this Data record has address [0x11], outside the
    window; its field [ZZ] does not convert, yet the record is processed
    without a parse failure, because the conversion sits inside the
    window test. *)
Lemma out_of_window_byte_is_not_parsed :
  header ":0200100041ZZ" = Ok (2, 0x10, 0)
  /\ byte_address 0 0x10 1 = 0x11
  /\ in_range 0x10 0x11 0x11 = false
  /\ hex_field ":0200100041ZZ" (9 + 1 * 2) 2 = Throw invalid_argument
  /\ snd (process_line 0x10 0x11 initial ":0200100041ZZ") = Next
  /\ snd (fst (process_line 0x10 0x11 initial ":0200100041ZZ")) = [Store 0x10 0x41].
Proof. repeat split; vm_compute; reflexivity. Qed.

(** C9, as the program has it.  Of the payload of a Data record only the
    bytes whose address passes the window test are parsed: two Data
    records with the same header that agree on those bytes are processed
    alike, whatever stands in the other payload positions; and when each
    in-window byte converts, the record is processed without a parse
    failure and stores only in-window bytes. *)
Theorem only_window_bytes_are_parsed (startAddress endAddress : Z)
    (st : state) (line line' : string) (bc off : Z) :
  header line = Ok (bc, off, 0) -> header line' = Ok (bc, off, 0) ->
  (forall k, (k < Z.to_nat bc)%nat ->
     in_range startAddress endAddress
       (byte_address (extendedLinearAddress st) off k) = true ->
     hex_field line (9 + k * 2) 2 = hex_field line' (9 + k * 2) 2) ->
  process_line startAddress endAddress st line =
  process_line startAddress endAddress st line'
  /\ (payload_readable startAddress endAddress line
        (uint32 (extendedLinearAddress st + off)) 0 (Z.to_nat bc) ->
      snd (process_line startAddress endAddress st line) = Next
      /\ forall ev, In ev (snd (fst (process_line startAddress endAddress st line))) ->
           exists a v, ev = Store a v
                       /\ in_range startAddress endAddress a = true).
Proof.
  intros Hh Hh' Hsame. split.
  - rewrite (process_line_data _ _ _ _ _ _ Hh), (process_line_data _ _ _ _ _ _ Hh').
    unfold data_loop.
    rewrite (data_from_agree startAddress endAddress line line').
    + reflexivity.
    + intros k Hk. apply Hsame. lia.
  - intros Hr. split.
    + rewrite (process_line_data _ _ _ _ _ _ Hh). unfold data_loop.
      pose proof (data_from_normal startAddress endAddress line _
                    (Z.to_nat bc) 0 (memoryMap st) Hr) as Hn.
      destruct (data_from _ _ _ _ _ _ _) as [[m' log] r]. cbn [snd] in *.
      now rewrite Hn.
    + destruct (process_line startAddress endAddress st line)
        as [[st' log] sg] eqn:E. cbn [fst snd].
      apply (process_line_replayed _ _ _ _ _ _ _ E).
Qed.

Lemma only_window_bytes_are_parsed_witness :
  process_line 0x10 0x11 initial ":0200100041ZZ" =
  process_line 0x10 0x11 initial ":02001000417E"
  /\ snd (process_line 0x10 0x11 initial ":0200100041ZZ") = Next.
Proof.
  destruct (only_window_bytes_are_parsed 0x10 0x11 initial
              ":0200100041ZZ" ":02001000417E" 2 0x10) as [Heq Hok].
  - vm_compute; reflexivity.
  - vm_compute; reflexivity.
  - intros k Hk Hw.
    assert (k = 0%nat \/ k = 1%nat) as [-> | ->] by (vm_compute in Hk; lia).
    + vm_compute; reflexivity.
    + vm_compute in Hw. discriminate.
  - split; [exact Heq|]. apply Hok.
    intros j Hj Hw.
    assert (j = 0%nat \/ j = 1%nat) as [-> | ->] by (vm_compute in Hj; lia).
    + vm_compute; reflexivity.
    + vm_compute in Hw. discriminate.
Defined.

(** C10.  When the payload loop of a Data record throws at byte [k],
    every in-window byte [j < k] it had converted is in the map when the
    line is left through the [catch]; the reader goes on from that map,
    and the image at the end holds the byte at its index unless a later
    line stores to the same address. *)
Theorem partial_record_is_kept (startAddress bankSize : Z) (st : state)
    (line : string) (post : list string) (bc off w : Z) (j k : nat) (e : exn) :
  0 <= startAddress < 2 ^ 32 -> 0 <= bankSize < 2 ^ 32 ->
  candidate line = true -> header line = Ok (bc, off, 0) ->
  let endAddress := uint32 (startAddress + bankSize) in
  let currentAddress := uint32 (extendedLinearAddress st + off) in
  (k < Z.to_nat bc)%nat ->
  in_range startAddress endAddress (byte_address (extendedLinearAddress st) off k) = true ->
  hex_field line (9 + k * 2) 2 = Throw e ->
  payload_readable startAddress endAddress line currentAddress 0 k ->
  (j < k)%nat ->
  in_range startAddress endAddress (byte_address (extendedLinearAddress st) off j) = true ->
  hex_field line (9 + j * 2) 2 = Ok w ->
  let a := byte_address (extendedLinearAddress st) off j in
  let after := process_line startAddress endAddress st line in
  let final := run startAddress bankSize post (fst (fst after)) in
  snd after = Caught e
  /\ memoryMap (fst (fst after)) !! a = Some (uint8 w)
  /\ run startAddress bankSize (line :: post) st =
     (fst final, snd (fst after) ++ Warning line e :: snd final)
  /\ image startAddress bankSize (memoryMap (fst final))
       !! Z.to_nat (a - startAddress)
     = Some (match last_store a (snd final) with
             | Some v => v
             | None => uint8 w
             end).
Proof.
  intros Hs Hb Hc Hh endAddress currentAddress Hk Hkw Hkp Hkr Hj Hjw Hjp a after final.
  assert (Hsig : snd after = Caught e).
  { apply process_line_caught_iff. right. right. exists bc, off, k.
    repeat split; assumption. }
  assert (Hm : memoryMap (fst (fst after)) !! a = Some (uint8 w)).
  { apply (process_line_stores_byte startAddress endAddress st line bc off w j Hh);
      [lia|exact Hjw|exact Hjp|].
    intros i Hi. apply Hkr. lia. }
  split; [exact Hsig|]. split; [exact Hm|]. split.
  - unfold run. fold endAddress. now apply read_lines_caught.
  - destruct final as [st2 log2] eqn:E. cbn [fst snd].
    unfold final, run in E. fold endAddress in E.
    apply read_lines_replayed in E as [R _].
    apply image_entry; [exact Hs|exact Hb|exact Hjw|].
    rewrite (R a), Hm. now destruct (last_store a log2).
Qed.

Lemma partial_record_is_kept_witness :
  snd (process_line 0x10 (uint32 (0x10 + 3)) initial ":0300100041ZZ") = Caught invalid_argument
  /\ image 0x10 3
       (memoryMap (fst (run 0x10 3 [":0100120022CB"%string]
          (fst (fst (process_line 0x10 (uint32 (0x10 + 3)) initial ":0300100041ZZ"))))))
       !! Z.to_nat (0x10 - 0x10) = Some 0x41.
Proof.
  destruct (partial_record_is_kept 0x10 3 initial ":0300100041ZZ"
              [":0100120022CB"%string] 3 0x10 0x41 0 1 invalid_argument)
    as (Hsig & _ & _ & Himg).
  - lia.
  - lia.
  - reflexivity.
  - vm_compute; reflexivity.
  - vm_compute; lia.
  - vm_compute; reflexivity.
  - vm_compute; reflexivity.
  - intros i Hi _. assert (i = 0%nat) as -> by lia. vm_compute; reflexivity.
  - lia.
  - vm_compute; reflexivity.
  - vm_compute; reflexivity.
  - split; [exact Hsig|]. exact Himg.
Defined.

(** * Further properties of the code *)

(** ** The checksum as a linear map *)

Section Linear.

Lemma lxor_swap (a b c : Z) : Z.lxor (Z.lxor a b) c = Z.lxor (Z.lxor a c) b.
Proof. now rewrite !Z.lxor_assoc, (Z.lxor_comm b c). Qed.

Lemma crc_shift_S (j : nat) (crc : Z) :
  crc_shift (S j) crc = crc_shift j (crc_shift 1 crc).
Proof. reflexivity. Qed.

Lemma crc_shift_1 (crc : Z) :
  crc_shift 1 crc = if Z.odd crc then Z.lxor (crc / 2) POLYNOMIAL else crc / 2.
Proof. cbn [crc_shift]. now rewrite land_1_odd, shiftr_1_half. Qed.

Lemma crc_shift_plus (i j : nat) (crc : Z) :
  crc_shift (i + j) crc = crc_shift j (crc_shift i crc).
Proof.
  revert crc. induction i as [|i IH]; intros crc; [reflexivity|].
  cbn [Nat.add]. now rewrite (crc_shift_S (i + j)), (crc_shift_S i), IH.
Qed.

Lemma crc_shift_1_lxor (a b : Z) :
  crc_shift 1 (Z.lxor a b) = Z.lxor (crc_shift 1 a) (crc_shift 1 b).
Proof.
  rewrite !crc_shift_1, <- !shiftr_1_half, Z.shiftr_lxor.
  rewrite <- !Z.bit0_odd, Z.lxor_spec.
  destruct (Z.testbit a 0), (Z.testbit b 0); cbn [xorb].
  - rewrite (lxor_swap _ POLYNOMIAL), Z.lxor_assoc, Z.lxor_assoc.
    now rewrite Z.lxor_nilpotent, Z.lxor_0_r.
  - apply lxor_swap.
  - now rewrite Z.lxor_assoc.
  - reflexivity.
Qed.

Lemma crc_shift_lxor (j : nat) (a b : Z) :
  crc_shift j (Z.lxor a b) = Z.lxor (crc_shift j a) (crc_shift j b).
Proof.
  revert a b. induction j as [|j IH]; intros a b; [reflexivity|].
  now rewrite (crc_shift_S j), crc_shift_1_lxor, IH.
Qed.

(** Zero bits shifted out leave what was above them. *)
Lemma crc_shift_pow2 (j : nat) (w : Z) :
  crc_shift j (w * 2 ^ Z.of_nat j) = w.
Proof.
  induction j as [|j IH]; [cbn; lia|].
  rewrite crc_shift_S, crc_shift_1, Nat2Z.inj_succ, Z.pow_succ_r by lia.
  replace (w * (2 * 2 ^ Z.of_nat j)) with (2 * (w * 2 ^ Z.of_nat j)) by lia.
  rewrite Z.odd_mul. cbn [Z.odd andb].
  replace (2 * (w * 2 ^ Z.of_nat j) / 2) with (w * 2 ^ Z.of_nat j); [exact IH|].
  symmetry. rewrite Z.mul_comm. apply Z.div_mul. lia.
Qed.

Lemma add_low_byte (w b : Z) : 0 <= b < 256 -> b + 256 * w = Z.lxor (256 * w) b.
Proof.
  intros Hb. rewrite (lxor_low_byte _ _ Hb). unfold Reference.xor_low8.
  rewrite (Z.mul_comm 256 w), Z.div_mul, Z.mod_mul, Z.lxor_0_l by lia. lia.
Qed.

(** The outer loop over [bytes] is the inner loop run [8 * length bytes]
    times on the register XORed with the bytes as one number. *)
Lemma crc_fold_shift (bytes : list Z) (crc : Z) :
  Forall (fun b => 0 <= b < 256) bytes ->
  fold_left crc_update bytes crc =
  crc_shift (8 * length bytes) (Z.lxor crc (word_of bytes)).
Proof.
  intros Hb. revert crc. induction Hb as [|b rest Hb _ IH]; intros crc.
  - cbn. now rewrite Z.lxor_0_r.
  - cbn [fold_left word_of length]. rewrite IH.
    replace (8 * S (length rest))%nat with (8 + 8 * length rest)%nat by lia.
    rewrite crc_shift_plus. f_equal. unfold crc_update.
    rewrite (add_low_byte _ _ Hb).
    replace (Z.lxor crc (Z.lxor (256 * word_of rest) b))
      with (Z.lxor (Z.lxor crc b) (256 * word_of rest))
      by (rewrite !Z.lxor_assoc; f_equal; apply Z.lxor_comm).
    rewrite (crc_shift_lxor 8 (Z.lxor crc b)). f_equal.
    rewrite Z.mul_comm. symmetry. exact (crc_shift_pow2 8 (word_of rest)).
Qed.

Lemma testbit_31_small (a : Z) : 0 <= a < 2 ^ 31 -> Z.testbit a 31 = false.
Proof.
  intros Ha. apply Z.testbit_false; [lia|]. now rewrite Z.div_small by lia.
Qed.

Lemma crc_unshift_shift (crc : Z) :
  0 <= crc < 2 ^ 32 -> crc_unshift (crc_shift 1 crc) = crc.
Proof.
  intros Hc. rewrite crc_shift_1. unfold crc_unshift.
  assert (Hh : 0 <= crc / 2 < 2 ^ 31)
    by (split; [apply Z.div_pos|apply Z.div_lt_upper_bound]; lia).
  pose proof (Z.div2_odd crc) as Hd. rewrite Z.div2_div in Hd.
  destruct (Z.odd crc); cbn [Z.b2z] in Hd.
  - rewrite Z.lxor_spec, (testbit_31_small _ Hh).
    change (Z.testbit POLYNOMIAL 31) with true. cbn [xorb].
    rewrite Z.lxor_assoc, Z.lxor_nilpotent, Z.lxor_0_r. lia.
  - rewrite (testbit_31_small _ Hh). lia.
Qed.

Lemma crc_shift_inj (j : nat) (a b : Z) :
  0 <= a < 2 ^ 32 -> 0 <= b < 2 ^ 32 ->
  crc_shift j a = crc_shift j b -> a = b.
Proof.
  revert a b. induction j as [|j IH]; intros a b Ha Hb; [easy|].
  rewrite (crc_shift_S j a), (crc_shift_S j b). intros H.
  apply IH in H; try (apply (crc_shift_range 1); assumption).
  rewrite <- (crc_unshift_shift a Ha), <- (crc_unshift_shift b Hb). now f_equal.
Qed.

Lemma word_of_range (bytes : list Z) :
  Forall (fun b => 0 <= b < 256) bytes ->
  0 <= word_of bytes < 256 ^ Z.of_nat (length bytes).
Proof.
  induction 1 as [|b rest Hb _ IH]; cbn [word_of length]; [cbn; lia|].
  rewrite Nat2Z.inj_succ, Z.pow_succ_r by lia. lia.
Qed.

Lemma word_of_inj (d1 d2 : list Z) :
  Forall (fun b => 0 <= b < 256) d1 -> Forall (fun b => 0 <= b < 256) d2 ->
  length d1 = length d2 -> word_of d1 = word_of d2 -> d1 = d2.
Proof.
  intros H1. revert d2. induction H1 as [|b1 r1 Hb1 _ IH]; intros d2 H2 Hlen Hw.
  - now destruct d2.
  - destruct H2 as [|b2 r2 Hb2 H2]; [discriminate|].
    cbn [word_of length] in *.
    assert (b1 = b2 /\ word_of r1 = word_of r2) as [-> Hr] by lia.
    f_equal. apply IH; [assumption|lia|assumption].
Qed.

Lemma lxor_cancel_r (a b c : Z) : Z.lxor a c = Z.lxor b c -> a = b.
Proof.
  intros H. rewrite <- (Z.lxor_0_r a), <- (Z.lxor_0_r b),
    <- (Z.lxor_nilpotent c), <- !Z.lxor_assoc. now f_equal.
Qed.

Lemma crc_shift_zero (j : nat) : crc_shift j 0 = 0.
Proof. induction j as [|j IH]; [reflexivity|]. now rewrite crc_shift_S. Qed.

Lemma byte_high_bits (x i : Z) : 0 <= x < 256 -> 8 <= i -> Z.testbit x i = false.
Proof.
  intros Hx Hi. apply Z.testbit_false; [lia|].
  rewrite Z.div_small; [reflexivity|]. split; [lia|].
  assert (2 ^ 8 <= 2 ^ i) by (apply Z.pow_le_mono_r; lia). lia.
Qed.

(** [word_of] lays the bits of an input out in the order of [bit_at]. *)
Lemma word_of_bit (data : list Z) (i : Z) :
  Forall (fun b => 0 <= b < 256) data -> 0 <= i ->
  Z.testbit (word_of data) i = bit_at data i.
Proof.
  intros Hd. revert i. induction Hd as [|x rest Hx _ IH]; intros i Hi.
  - unfold bit_at. cbn [word_of]. rewrite lookup_nil. apply Z.testbit_0_l.
  - cbn [word_of]. rewrite (add_low_byte _ _ Hx), Z.lxor_spec.
    rewrite (Z.mul_comm 256). change 256 with (2 ^ 8).
    rewrite <- Z.shiftl_mul_pow2 by lia. unfold bit_at.
    destruct (Z_lt_le_dec i 8) as [Hlt|Hge].
    + rewrite Z.shiftl_spec_low by lia.
      rewrite Z.div_small, Z.mod_small by lia. reflexivity.
    + rewrite Z.shiftl_spec by lia. rewrite (byte_high_bits x i Hx Hge).
      rewrite xorb_false_r, (IH (i - 8)) by lia. unfold bit_at.
      assert (Hq : i / 8 = (i - 8) / 8 + 1).
      { replace i with (i - 8 + 1 * 8) at 1 by lia. apply Z.div_add. lia. }
      assert (Hr : i mod 8 = (i - 8) mod 8).
      { replace i with (i - 8 + 1 * 8) at 1 by lia. apply Z.mod_add. lia. }
      assert (0 <= (i - 8) / 8) by (apply Z.div_pos; lia).
      rewrite Hq, Hr.
      replace (Z.to_nat ((i - 8) / 8 + 1)) with (S (Z.to_nat ((i - 8) / 8)))
        by lia.
      reflexivity.
Qed.

(** A number whose set bits all lie in [s, s + 32). *)
Lemma burst_word (e s : Z) :
  0 <= s -> 0 <= e ->
  (forall i, 0 <= i -> Z.testbit e i = true -> s <= i < s + 32) ->
  exists b, 0 <= b < 2 ^ 32 /\ e = b * 2 ^ s.
Proof.
  intros Hs He Hbits. exists (Z.shiftr e s). split.
  - split; [now apply Z.shiftr_nonneg|].
    assert (Hm : Z.shiftr e s = Z.shiftr e s mod 2 ^ 32).
    { apply Z.bits_inj'. intros i Hi.
      destruct (Z_lt_le_dec i 32) as [Hlt|Hge].
      - now rewrite Z.mod_pow2_bits_low by lia.
      - rewrite Z.mod_pow2_bits_high by lia. rewrite Z.shiftr_spec by lia.
        destruct (Z.testbit e (i + s)) eqn:Hb; [|reflexivity].
        specialize (Hbits (i + s) ltac:(lia) Hb). lia. }
    rewrite Hm. apply Z.mod_pos_bound. lia.
  - rewrite <- Z.shiftl_mul_pow2 by lia. apply Z.bits_inj'. intros i Hi.
    destruct (Z_lt_le_dec i s) as [Hlt|Hge].
    + rewrite Z.shiftl_spec_low by lia.
      destruct (Z.testbit e i) eqn:Hb; [|reflexivity].
      specialize (Hbits i Hi Hb). lia.
    + rewrite Z.shiftl_spec, Z.shiftr_spec by lia. f_equal. lia.
Qed.

End Linear.

(** X1.  [crc32] detects every burst error of up to 32 bits: two inputs
    of the same length that differ, and differ only in bits that lie
    within 32 consecutive positions (bits counted byte by byte, the
    lowest bit of a byte first, across byte boundaries), have different
    checksums. *)
Theorem crc32_detects_burst (d1 d2 : list Z) (s : Z) :
  Forall (fun b => 0 <= b < 256) d1 -> Forall (fun b => 0 <= b < 256) d2 ->
  length d1 = length d2 -> d1 <> d2 ->
  (forall i, 0 <= i -> bit_at d1 i <> bit_at d2 i -> s <= i < s + 32) ->
  crc32 d1 <> crc32 d2.
Proof.
  intros H1 H2 Hlen Hne Hburst Heq.
  pose proof (word_of_range d1 H1) as R1. pose proof (word_of_range d2 H2) as R2.
  rewrite <- Hlen in R2.
  set (n := length d1) in *.
  assert (Hpow : 256 ^ Z.of_nat n = 2 ^ Z.of_nat (8 * n)).
  { change 256 with (2 ^ 8). rewrite <- Z.pow_mul_r by lia. f_equal. lia. }
  rewrite Hpow in R1, R2.
  set (e := Z.lxor (word_of d1) (word_of d2)).
  assert (He : 0 <= e < 2 ^ Z.of_nat (8 * n)) by (apply lxor_below; lia).
  assert (Hnz : e <> 0).
  { intros H0. apply Z.lxor_eq in H0. apply Hne. now apply word_of_inj. }
  destruct (burst_word e (Z.max s 0)) as (b & Hb & Heb); [lia|lia| |].
  { intros i Hi Hbit. unfold e in Hbit.
    rewrite Z.lxor_spec, (word_of_bit d1 i H1 Hi), (word_of_bit d2 i H2 Hi) in Hbit.
    assert (Hd : bit_at d1 i <> bit_at d2 i)
      by (destruct (bit_at d1 i), (bit_at d2 i); discriminate).
    specialize (Hburst i Hi Hd). lia. }
  set (t := Z.to_nat (Z.max s 0)) in *.
  assert (Ht : Z.max s 0 = Z.of_nat t) by (unfold t; lia).
  rewrite Ht in Heb.
  assert (Hlt : (t < 8 * n)%nat).
  { assert (Hb1 : 1 <= b) by lia.
    assert (Hp : 2 ^ Z.of_nat t < 2 ^ Z.of_nat (8 * n)) by nia.
    apply Z.pow_lt_mono_r_iff in Hp; lia. }
  unfold crc32 in Heq. apply lxor_cancel_r in Heq.
  rewrite (crc_fold_shift d1 _ H1), (crc_fold_shift d2 _ H2), <- Hlen in Heq.
  fold n in Heq.
  assert (Hz : crc_shift (8 * n) e = 0).
  { replace e with (Z.lxor (Z.lxor 0xFFFFFFFF (word_of d1))
                           (Z.lxor 0xFFFFFFFF (word_of d2))).
    - rewrite crc_shift_lxor, Heq. apply Z.lxor_nilpotent.
    - unfold e. rewrite Z.lxor_assoc, <- (Z.lxor_assoc (word_of d1)).
      rewrite (Z.lxor_comm (word_of d1) 0xFFFFFFFF), Z.lxor_assoc,
        <- Z.lxor_assoc, Z.lxor_nilpotent. apply Z.lxor_0_l. }
  replace (8 * n)%nat with (t + (8 * n - t))%nat in Hz by lia.
  rewrite crc_shift_plus, Heb, crc_shift_pow2 in Hz.
  rewrite <- (crc_shift_zero (8 * n - t)) in Hz.
  apply crc_shift_inj in Hz; [|lia|lia].
  apply Hnz. rewrite Heb, Hz. reflexivity.
Qed.

Lemma crc32_detects_burst_witness :
  crc32 [0x00; 0x00; 0x00; 0x00; 0x00] <> crc32 [0x80; 0x00; 0x00; 0x00; 0x01].
Proof.
  apply (crc32_detects_burst [0x00; 0x00; 0x00; 0x00; 0x00]
           [0x80; 0x00; 0x00; 0x00; 0x01] 7).
  - repeat constructor; lia.
  - repeat constructor; lia.
  - reflexivity.
  - discriminate.
  - intros i Hi Hd.
    destruct (Z_lt_le_dec i 7) as [Hlo|Hlo];
      [|destruct (Z_lt_le_dec i 39) as [Hhi|Hhi]; [lia|]]; exfalso; apply Hd.
    + assert (i = 0 \/ i = 1 \/ i = 2 \/ i = 3 \/ i = 4 \/ i = 5 \/ i = 6)
        as [->|[->|[->|[->|[->|[->| ->]]]]]] by lia; reflexivity.
    + unfold bit_at.
      assert (Hq : 4 <= i / 8) by (apply Z.div_le_lower_bound; lia).
      destruct (Z.to_nat (i / 8)) as [|[|[|[|[|q]]]]] eqn:Eq; try lia.
      * cbn. pose proof (Z.mod_pos_bound i 8 ltac:(lia)) as Hm.
        assert (i / 8 = 4) as E4 by lia.
        pose proof (Z.div_mod i 8 ltac:(lia)) as Hdm. rewrite E4 in Hdm.
        assert (i mod 8 = 7) as -> by lia. reflexivity.
      * reflexivity.
Defined.

(** ** Lines without effect *)

Lemma read_lines_skippable (startAddress endAddress : Z) (line : string)
    (rest : list string) (st : state) :
  skippable line = true ->
  read_lines startAddress endAddress (line :: rest) st =
  read_lines startAddress endAddress rest st.
Proof.
  unfold skippable. intros H. cbn [read_lines].
  destruct (candidate line); [|reflexivity]. cbn [negb orb] in H.
  destruct (header line) as [[[bc off] ty]|e] eqn:Hh; [|discriminate].
  apply andb_true_iff in H as [H H1]. apply andb_true_iff in H as [H4 H0].
  apply negb_true_iff, Z.eqb_neq in H4, H0, H1.
  rewrite (process_line_ignored _ _ _ _ _ _ _ Hh H4 H0 H1).
  now destruct (read_lines _ _ rest st).
Qed.

(** X2.  Lines that do not start with [':'] and records whose type is
    none of [0x00], [0x01], [0x04] (extended segment address, start
    address records, ...) have no effect, whatever they carry: a run on
    the input without them gives the same state, log and outcome. *)
Theorem unrecognised_lines_have_no_effect (startAddress bankSize : Z)
    (lines : list string) (st : state) (binWritable : bool) :
  run startAddress bankSize (List.filter (fun l => negb (skippable l)) lines) st
  = run startAddress bankSize lines st
  /\ main startAddress bankSize
       (Some (List.filter (fun l => negb (skippable l)) lines)) binWritable
     = main startAddress bankSize (Some lines) binWritable.
Proof.
  assert (Hrun : forall endAddress st',
    read_lines startAddress endAddress
      (List.filter (fun l => negb (skippable l)) lines) st'
    = read_lines startAddress endAddress lines st').
  { intros endAddress. induction lines as [|line rest IH]; intros st'; [reflexivity|].
    cbn [List.filter]. destruct (skippable line) eqn:Hskip; cbn [negb].
    - now rewrite (read_lines_skippable _ _ _ _ _ Hskip).
    - cbn [read_lines]. destruct (candidate line); [|apply IH].
      destruct (process_line _ _ st' line) as [[st1 log1] [| |e]];
        [now rewrite IH|reflexivity|now rewrite IH]. }
  split; [apply Hrun|]. unfold main. now rewrite Hrun.
Qed.

(** ** What follows the payload *)

Lemma substring_app_l (s t : string) (pos n : nat) :
  (pos + n <= String.length s)%nat ->
  String.substring pos n (s ++ t) = String.substring pos n s.
Proof.
  revert pos n. induction s as [|c r IH]; intros pos n H; cbn [String.length] in H.
  - assert (pos = 0%nat /\ n = 0%nat) as [-> ->] by lia. now destruct t.
  - change (String c r +:+ t) with (String c (r +:+ t)). destruct pos as [|pos].
    + destruct n as [|n]; [reflexivity|]. cbn [String.substring].
      f_equal. apply IH. lia.
    + cbn [String.substring]. apply IH. lia.
Qed.

Lemma string_length_app (s t : string) :
  String.length (s ++ t) = (String.length s + String.length t)%nat.
Proof.
  induction s as [|c r IH]; [reflexivity|].
  change (String c r +:+ t) with (String c (r +:+ t)).
  cbn [String.length Nat.add]. now rewrite IH.
Qed.

Lemma hex_field_app_l (s t : string) (pos n : nat) :
  (pos + n <= String.length s)%nat ->
  hex_field (s ++ t) pos n = hex_field s pos n.
Proof.
  intros H. unfold hex_field, substr.
  rewrite string_length_app, (substring_app_l _ _ _ _ H).
  destruct (Nat.ltb_spec (String.length s + String.length t) pos);
    destruct (Nat.ltb_spec (String.length s) pos); try lia; reflexivity.
Qed.

(** X3.  Nothing after the payload a record declares is read: the
    record checksum, and whatever else follows, can be anything (or be
    missing) without changing how the line is processed. *)
Theorem record_checksum_is_not_read (startAddress endAddress : Z)
    (st : state) (record tail : string) (bc off ty : Z) :
  header record = Ok (bc, off, ty) ->
  (9 + 2 * Z.to_nat bc <= String.length record)%nat ->
  (ty = 4 -> (13 <= String.length record)%nat) ->
  candidate (record ++ tail) = candidate record
  /\ process_line startAddress endAddress st (record ++ tail)
     = process_line startAddress endAddress st record.
Proof.
  intros Hh Hlen H4.
  assert (Hhead : header (record ++ tail) = header record).
  { unfold header. now rewrite !hex_field_app_l by lia. }
  split.
  - destruct record; [cbn in Hlen; lia|reflexivity].
  - unfold process_line. rewrite Hhead, Hh.
    destruct (Z.eqb_spec ty 4) as [->|_].
    { now rewrite hex_field_app_l by (specialize (H4 eq_refl); lia). }
    destruct (ty =? 0); [|reflexivity].
    unfold data_loop.
    rewrite (data_from_agree startAddress endAddress (record ++ tail) record);
      [reflexivity|].
    intros k Hk _. apply hex_field_app_l. lia.
Qed.

Lemma record_checksum_is_not_read_witness :
  process_line 0x10 0x11 initial (":0100100041" ++ "00")
  = process_line 0x10 0x11 initial ":0100100041".
Proof.
  apply (record_checksum_is_not_read 0x10 0x11 initial ":0100100041" "00" 1 0x10 0).
  - vm_compute; reflexivity.
  - vm_compute; lia.
  - discriminate.
Defined.

(** ** Records that do not overlap *)

Section Independent.

Variables startAddress endAddress : Z.

(** What the Data loop logs and how it ends does not depend on the map
    it starts from. *)
Lemma data_from_frame (line : string) (currentAddress : Z) (n i : nat)
    (m m' : gmap Z Z) :
  snd (fst (data_from startAddress endAddress line currentAddress n i m))
  = snd (fst (data_from startAddress endAddress line currentAddress n i m'))
  /\ snd (data_from startAddress endAddress line currentAddress n i m)
     = snd (data_from startAddress endAddress line currentAddress n i m').
Proof.
  revert i m m'. induction n as [|n IH]; intros i m m'; [now split|].
  cbn [data_from]. destruct (in_range _ _ _); [|apply IH].
  destruct (hex_field line (9 + i * 2) 2) as [v|e]; [|now split].
  set (a := uint32 (currentAddress + Z.of_nat i)).
  specialize (IH (S i) (<[a := uint8 v]> m) (<[a := uint8 v]> m')).
  destruct (data_from _ _ _ _ _ _ (<[a := _]> m)) as [[m1 log1] r1].
  destruct (data_from _ _ _ _ _ _ (<[a := _]> m')) as [[m2 log2] r2].
  cbn [fst snd] in *. destruct IH as [-> ->]. now split.
Qed.

(** A Data record on a state: the base stays, the log and the signal are
    those of the record on any other map, the map is the log replayed. *)
Lemma process_line_data_frame (st : state) (line : string) (bc off : Z)
    (m : gmap Z Z) :
  header line = Ok (bc, off, 0) ->
  let after := process_line startAddress endAddress st line in
  let other := process_line startAddress endAddress
                 {| memoryMap := m; extendedLinearAddress := extendedLinearAddress st |}
                 line in
  extendedLinearAddress (fst (fst after)) = extendedLinearAddress st
  /\ snd (fst after) = snd (fst other)
  /\ snd after = snd other
  /\ snd after <> Break
  /\ replayed (memoryMap st) (memoryMap (fst (fst after))) (snd (fst after)).
Proof.
  intros Hh. cbn zeta.
  rewrite !(process_line_data _ _ _ _ _ _ Hh). cbn [memoryMap extendedLinearAddress].
  unfold data_loop.
  pose proof (data_from_frame line (uint32 (extendedLinearAddress st + off))
                (Z.to_nat bc) 0 (memoryMap st) m) as [Hlog Hsig].
  destruct (data_from _ _ _ _ _ _ (memoryMap st)) as [[m1 log1] r1] eqn:E1.
  destruct (data_from _ _ _ _ _ _ m) as [[m2 log2] r2].
  cbn [fst snd memoryMap extendedLinearAddress] in *. subst log2 r2.
  repeat split; [now destruct r1|eapply data_from_replayed, E1].
Qed.

End Independent.

(** X4.  Two adjacent Data records none of whose byte addresses coincide
    can be swapped: the reader reaches the same map and base after
    them, and so the same image, whatever follows. *)
Theorem disjoint_records_commute (startAddress bankSize : Z) (st : state)
    (l1 l2 : string) (rest : list string) (bc1 off1 bc2 off2 : Z) :
  candidate l1 = true -> candidate l2 = true ->
  header l1 = Ok (bc1, off1, 0) -> header l2 = Ok (bc2, off2, 0) ->
  (forall k1 k2, (k1 < Z.to_nat bc1)%nat -> (k2 < Z.to_nat bc2)%nat ->
     byte_address (extendedLinearAddress st) off1 k1
     <> byte_address (extendedLinearAddress st) off2 k2) ->
  fst (run startAddress bankSize (l1 :: l2 :: rest) st)
  = fst (run startAddress bankSize (l2 :: l1 :: rest) st).
Proof.
  intros Hc1 Hc2 Hh1 Hh2 Hdis. unfold run.
  set (endAddress := uint32 (startAddress + bankSize)).
  assert (Hswap : forall la lb bca offa bcb offb,
    candidate la = true -> candidate lb = true ->
    header la = Ok (bca, offa, 0) -> header lb = Ok (bcb, offb, 0) ->
    let sa := fst (fst (process_line startAddress endAddress st la)) in
    let sab := fst (fst (process_line startAddress endAddress sa lb)) in
    fst (read_lines startAddress endAddress (la :: lb :: rest) st)
    = fst (read_lines startAddress endAddress rest sab)
    /\ extendedLinearAddress sab = extendedLinearAddress st
    /\ replayed (memoryMap st) (memoryMap sab)
         (snd (fst (process_line startAddress endAddress st la))
          ++ snd (fst (process_line startAddress endAddress st lb)))).
  { intros la lb bca offa bcb offb Hca Hcb Hha Hhb sa sab.
    destruct (process_line_data_frame startAddress endAddress st la bca offa
                (memoryMap st) Hha) as (Ea & _ & _ & Sa & Ra).
    fold sa in Ea, Ra.
    destruct (process_line_data_frame startAddress endAddress sa lb bcb offb
                (memoryMap st) Hhb) as (Eb & Lb & _ & Sb & Rb).
    fold sab in Eb, Rb. rewrite Ea in Lb.
    replace {| memoryMap := memoryMap st;
               extendedLinearAddress := extendedLinearAddress st |}
      with st in Lb by (now destruct st).
    rewrite Lb in Rb. split; [|split].
    - rewrite (read_lines_step _ _ st la _ Hca Sa). fold sa.
      now rewrite (read_lines_step _ _ sa lb _ Hcb Sb).
    - congruence.
    - eapply replayed_app; eassumption. }
  destruct (Hswap l1 l2 bc1 off1 bc2 off2 Hc1 Hc2 Hh1 Hh2) as (-> & E12 & R12).
  destruct (Hswap l2 l1 bc2 off2 bc1 off1 Hc2 Hc1 Hh2 Hh1) as (-> & E21 & R21).
  f_equal.
  set (s12 := fst (fst (process_line _ _ (fst (fst (process_line _ _ st l1))) l2))) in *.
  set (s21 := fst (fst (process_line _ _ (fst (fst (process_line _ _ st l2))) l1))) in *.
  f_equal. destruct s12 as [m12 e12], s21 as [m21 e21].
  cbn [memoryMap extendedLinearAddress] in *. f_equal; [|congruence].
  apply map_eq. intros a. rewrite (R12 a), (R21 a), !last_store_app.
  destruct (last_store a (snd (fst (process_line _ _ st l1)))) as [v1|] eqn:L1;
    destruct (last_store a (snd (fst (process_line _ _ st l2)))) as [v2|] eqn:L2;
    try reflexivity.
  exfalso. apply last_store_in in L1, L2.
  destruct (process_line startAddress endAddress st l1) as [[s1' log1] sg1] eqn:P1.
  destruct (process_line startAddress endAddress st l2) as [[s2' log2] sg2] eqn:P2.
  cbn [fst snd] in *.
  destruct (process_line_store_origin _ _ _ _ _ _ _ _ _ P1 L1)
    as (b1 & o1 & k1 & w1 & H1 & Hk1 & _ & _ & A1).
  destruct (process_line_store_origin _ _ _ _ _ _ _ _ _ P2 L2)
    as (b2 & o2 & k2 & w2 & H2 & Hk2 & _ & _ & A2).
  rewrite Hh1 in H1. rewrite Hh2 in H2. injection H1 as <- <-. injection H2 as <- <-.
  apply (Hdis k1 k2 Hk1 Hk2). congruence.
Qed.

Lemma disjoint_records_commute_witness :
  fst (run 0x10 4 [":0200100011224B"; ":0200120033445D"; ":00000001FF"]%string initial)
  = fst (run 0x10 4 [":0200120033445D"; ":0200100011224B"; ":00000001FF"]%string initial).
Proof.
  apply (disjoint_records_commute 0x10 4 initial ":0200100011224B" ":0200120033445D"
           [":00000001FF"%string] 2 0x10 2 0x12).
  - reflexivity.
  - reflexivity.
  - vm_compute; reflexivity.
  - vm_compute; reflexivity.
  - intros k1 k2 Hk1 Hk2.
    assert (k1 = 0 \/ k1 = 1)%nat as [-> | ->] by (vm_compute in Hk1; lia);
    assert (k2 = 0 \/ k2 = 1)%nat as [-> | ->] by (vm_compute in Hk2; lia);
    vm_compute; discriminate.
Defined.

(** ** The high base and the top of the address space *)

Lemma process_line_base_aligned (startAddress endAddress : Z) (st : state)
    (line : string) :
  aligned_base st ->
  aligned_base (fst (fst (process_line startAddress endAddress st line))).
Proof.
  intros Hst. unfold process_line.
  destruct (header line) as [[[bc off] ty]|e]; [|exact Hst].
  destruct (ty =? 4).
  - destruct (hex_field line 9 4) as [u|e]; [|exact Hst]. cbn [fst].
    exists (uint16 u). cbn [extendedLinearAddress].
    assert (Hu : 0 <= uint16 u < 65536) by (apply Z.mod_pos_bound; lia).
    split; [exact Hu|]. rewrite Z.shiftl_mul_pow2 by lia.
    apply uint32_small. lia.
  - destruct (ty =? 0).
    + now destruct (data_loop _ _ _ _ _ _) as [[m' log] r].
    + now destruct (ty =? 1).
Qed.

Lemma read_lines_base_aligned (startAddress endAddress : Z)
    (lines : list string) (st : state) :
  aligned_base st ->
  aligned_base (fst (read_lines startAddress endAddress lines st)).
Proof.
  revert st. induction lines as [|line rest IH]; intros st Hst; [exact Hst|].
  cbn [read_lines]. destruct (candidate line); [|now apply IH].
  pose proof (process_line_base_aligned startAddress endAddress st line Hst) as H1.
  destruct (process_line _ _ st line) as [[st1 log1] sg]. cbn [fst] in H1.
  specialize (IH st1 H1).
  destruct sg; [|exact H1|]; now destruct (read_lines _ _ rest st1).
Qed.

(** X5.  Whatever the input, the high base the reader holds is a
    multiple of [0x10000] below [2^32]; adding a 16-bit record offset to
    it therefore never wraps. *)
Theorem base_stays_aligned (startAddress bankSize : Z) (lines : list string) :
  let base :=
    extendedLinearAddress (fst (run startAddress bankSize lines initial)) in
  (exists u, 0 <= u < 65536 /\ base = u * 65536)
  /\ forall addressOffset, 0 <= addressOffset < 65536 ->
       uint32 (base + addressOffset) = base + addressOffset
       /\ base + addressOffset < 2 ^ 32.
Proof.
  cbn zeta.
  assert (H0 : aligned_base initial) by (exists 0; cbn; lia).
  pose proof (read_lines_base_aligned startAddress
                (uint32 (startAddress + bankSize)) lines initial H0) as (u & Hu & Hb).
  fold (run startAddress bankSize lines initial) in Hb. rewrite Hb.
  split; [eauto|]. intros off Hoff. split; [apply uint32_small|]; lia.
Qed.

(** X6.  A Data record that runs past the top of the address space is
    not cut off: a payload byte whose address base + offset + position
    reaches [2^32] is stored, when the loop gets to it, at that sum less
    [2^32], the window permitting. *)
Theorem data_record_wraps_at_top (startAddress endAddress : Z) (st : state)
    (line : string) (bc off w : Z) (k : nat) :
  header line = Ok (bc, off, 0) -> (k < Z.to_nat bc)%nat ->
  0 <= extendedLinearAddress st ->
  extendedLinearAddress st + off < 2 ^ 32 ->
  2 ^ 32 <= extendedLinearAddress st + off + Z.of_nat k ->
  let a := extendedLinearAddress st + off + Z.of_nat k - 2 ^ 32 in
  in_range startAddress endAddress a = true ->
  hex_field line (9 + k * 2) 2 = Ok w ->
  payload_readable startAddress endAddress line
    (uint32 (extendedLinearAddress st + off)) 0 k ->
  byte_address (extendedLinearAddress st) off k = a
  /\ memoryMap (fst (fst (process_line startAddress endAddress st line))) !! a
     = Some (uint8 w).
Proof.
  intros Hh Hk Hb Hlt Hge a Hw Hp Hr.
  pose proof (header_fields _ _ _ _ Hh) as (Hbc & Hoff & _).
  assert (Ha : byte_address (extendedLinearAddress st) off k = a).
  { unfold byte_address. rewrite (uint32_small (_ + off)) by lia.
    unfold uint32, a.
    replace (extendedLinearAddress st + off + Z.of_nat k)
      with (extendedLinearAddress st + off + Z.of_nat k - 2 ^ 32 + 1 * 2 ^ 32) at 1
      by lia.
    rewrite Z.mod_add by lia. apply Z.mod_small. lia. }
  split; [exact Ha|]. rewrite <- Ha in Hw |- *.
  now apply (process_line_stores_byte startAddress endAddress st line bc off w k).
Qed.

Lemma data_record_wraps_at_top_witness :
  memoryMap (fst (fst (process_line 0 0x10
     {| memoryMap := ∅; extendedLinearAddress := 0xFFFF0000 |} ":02FFFF00AABB9B")))
    !! 0 = Some 0xBB.
Proof.
  apply (data_record_wraps_at_top 0 0x10
           {| memoryMap := ∅; extendedLinearAddress := 0xFFFF0000 |}
           ":02FFFF00AABB9B" 2 0xFFFF 0xBB 1).
  - vm_compute; reflexivity.
  - vm_compute; lia.
  - cbn; lia.
  - cbn; lia.
  - cbn; lia.
  - vm_compute; reflexivity.
  - vm_compute; reflexivity.
  - intros j Hj Hw. assert (j = 0%nat) as -> by lia. vm_compute in Hw. discriminate.
Defined.

(** ** What a run hands over *)

Lemma image_bytes (startAddress bankSize : Z) (m : gmap Z Z) :
  (forall a v, m !! a = Some v -> 0 <= v < 256) ->
  Forall (fun b => 0 <= b < 256) (image startAddress bankSize m).
Proof.
  intros Hm. apply Forall_lookup. intros i x Hi.
  pose proof (lookup_lt_Some _ _ _ Hi) as Hlt. rewrite image_length in Hlt.
  destruct (build_spec startAddress bankSize m) as (_ & Hbuf & _).
  unfold image in Hi. rewrite (Hbuf i Hlt) in Hi. injection Hi as <-.
  destruct (m !! (startAddress + Z.of_nat i)) as [v|] eqn:Hv; [|lia].
  destruct (in_range _ _ _); [eapply Hm, Hv|lia].
Qed.

Lemma crc32_range_of_bytes (data : list Z) :
  Forall (fun b => 0 <= b < 256) data -> 0 <= crc32 data < 2 ^ 32.
Proof.
  intros Hd. unfold crc32. apply lxor_below; [lia| |lia].
  apply (crc_fold_reference data 0xFFFFFFFF Hd). lia.
Qed.

(** X7.  [main] ends with status 0 or 1, and with 0 exactly when it
    gets to the call [binFile.write].  What it passes to that call has
    exactly [bankSize] bytes, each in [0, 255]; the size it prints is
    that length and the hash it prints is the [crc32] of exactly those
    bytes, a 32-bit value. *)
Theorem main_exit_contract (startAddress bankSize : Z)
    (hexFile : option (list string)) (binWritable : bool) :
  let out := main startAddress bankSize hexFile binWritable in
  (status out = 0 \/ status out = 1)
  /\ (status out = 0 <-> exists binaryData, written out = Some binaryData)
  /\ forall binaryData, written out = Some binaryData ->
       length binaryData = Z.to_nat bankSize
       /\ Forall (fun b => 0 <= b < 256) binaryData
       /\ 0 <= crc32 binaryData < 2 ^ 32
       /\ exists log,
            trace out = log ++ [ParsedOk; Created (Z.to_nat bankSize);
                                Hash (crc32 binaryData)].
Proof.
  cbn zeta. destruct hexFile as [lines|].
  2: { cbn. split; [now right|]. split; [|discriminate].
       split; [discriminate|]. intros [b Hb]. discriminate. }
  unfold main. fold (run startAddress bankSize lines initial).
  destruct (run startAddress bankSize lines initial) as [st log] eqn:E.
  assert (Hbytes : Forall (fun b => 0 <= b < 256)
                     (image startAddress bankSize (memoryMap st))).
  { apply image_bytes. intros a v Hv.
    rewrite (run_entries _ _ _ _ _ _ E) in Hv. apply last_store_in in Hv.
    destruct (read_lines_store_origin _ _ _ _ _ _ _ _ E Hv)
      as (l & base & bc & off & k & w & _ & _ & _ & _ & _ & -> & _).
    apply uint8_range. }
  pose proof (image_length startAddress bankSize (memoryMap st)) as Hlen.
  unfold image in Hbytes, Hlen.
  destruct (build _ _ _ _) as [buf found]. cbn [fst] in *.
  destruct found; cbn [negb].
  - destruct binWritable; cbn [negb status written trace].
    + split; [now left|]. split; [split; eauto|].
      intros b [= <-]. split; [exact Hlen|]. split; [exact Hbytes|].
      split; [apply (crc32_range_of_bytes buf Hbytes)|].
      exists log. now rewrite Hlen.
    + split; [now right|]. split; [|discriminate].
      split; [discriminate|]. intros [b Hb]. discriminate.
  - cbn [status written trace]. split; [now right|]. split; [|discriminate].
    split; [discriminate|]. intros [b Hb]. discriminate.
Qed.

(** X8.  The population loop never writes outside the vector: for a
    32-bit start and size, an address that passes the window test has an
    index below [bankSize]; the write lands at that index and changes no
    other position and not the length. *)
Theorem population_stays_in_bounds (startAddress bankSize a v : Z)
    (binaryData : list Z) (dataFoundInRange : bool) :
  0 <= startAddress < 2 ^ 32 -> 0 <= bankSize < 2 ^ 32 ->
  length binaryData = Z.to_nat bankSize ->
  in_range startAddress (uint32 (startAddress + bankSize)) a = true ->
  let after :=
    place startAddress (uint32 (startAddress + bankSize)) a v
          (binaryData, dataFoundInRange) in
  (Z.to_nat (a - startAddress) < length binaryData)%nat
  /\ fst after !! Z.to_nat (a - startAddress) = Some v
  /\ length (fst after) = length binaryData
  /\ snd after = true
  /\ forall j, j <> Z.to_nat (a - startAddress) ->
       fst after !! j = binaryData !! j.
Proof.
  intros Hs Hb Hlen Hw. cbn zeta. unfold place. rewrite Hw. cbn [fst snd].
  pose proof (window_index _ _ _ Hs Hb Hw) as Hi.
  assert (Hlt : (Z.to_nat (a - startAddress) < length binaryData)%nat) by lia.
  split; [exact Hlt|]. split; [now apply list_lookup_insert_eq|].
  split; [apply length_insert|]. split; [reflexivity|].
  intros j Hj. now apply list_lookup_insert_ne.
Qed.

Lemma population_stays_in_bounds_witness :
  fst (place 0x08000000 (uint32 (0x08000000 + 4)) 0x08000002 0xBE
         ([0xFF; 0xFF; 0xFF; 0xFF], false))
    !! Z.to_nat (0x08000002 - 0x08000000) = Some 0xBE.
Proof.
  apply (population_stays_in_bounds 0x08000000 4 0x08000002 0xBE
           [0xFF; 0xFF; 0xFF; 0xFF] false); [lia|lia|reflexivity|].
  vm_compute; reflexivity.
Defined.

(** ** Letter case *)

Section LetterCase.

(** What the conversions ask of a character is the same for it and its
    upper-case form. *)
Lemma to_upper_same (c : ascii) :
  isspace (to_upper c) = isspace c
  /\ hex_digit (to_upper c) = hex_digit c
  /\ (code (to_upper c) =? 45) = (code c =? 45)
  /\ (code (to_upper c) =? 43) = (code c =? 43)
  /\ (code (to_upper c) =? 48) = (code c =? 48)
  /\ ((code (to_upper c) =? 120) || (code (to_upper c) =? 88))
     = ((code c =? 120) || (code c =? 88))
  /\ bool_decide (to_upper c = ":"%char) = bool_decide (c = ":"%char).
Proof.
  destruct c as [[] [] [] [] [] [] [] []]; vm_compute; repeat split.
Qed.

Lemma upper_case_substring (s : string) (pos n : nat) :
  String.substring pos n (upper_case s) = upper_case (String.substring pos n s).
Proof.
  revert pos n. induction s as [|c r IH]; intros pos n.
  - now destruct pos, n.
  - destruct pos as [|pos]; cbn [upper_case String.substring].
    + destruct n as [|n]; [reflexivity|]. cbn [upper_case]. now rewrite IH.
    + apply IH.
Qed.

Lemma upper_case_length (s : string) :
  String.length (upper_case s) = String.length s.
Proof. induction s as [|c r IH]; cbn [upper_case String.length]; congruence. Qed.

Lemma skip_space_upper (s : string) :
  skip_space (upper_case s) = upper_case (skip_space s).
Proof.
  induction s as [|c r IH]; [reflexivity|]. cbn [upper_case skip_space].
  rewrite (proj1 (to_upper_same c)). now destruct (isspace c).
Qed.

Lemma take_sign_upper (s : string) :
  take_sign (upper_case s) = (fst (take_sign s), upper_case (snd (take_sign s))).
Proof.
  destruct s as [|c r]; [reflexivity|]. cbn [upper_case take_sign].
  destruct (to_upper_same c) as (_ & _ & -> & -> & _).
  destruct (code c =? 45); [reflexivity|]. now destruct (code c =? 43).
Qed.

Lemma skip_0x_upper (s : string) :
  skip_0x (upper_case s) = upper_case (skip_0x s).
Proof.
  destruct s as [|z [|x [|d r]]]; try reflexivity. cbn [upper_case skip_0x].
  destruct (to_upper_same z) as (_ & _ & _ & _ & -> & _).
  destruct (to_upper_same x) as (_ & _ & _ & _ & _ & -> & _).
  destruct (to_upper_same d) as (_ & -> & _).
  now destruct (_ && _ && _).
Qed.

Lemma digits_upper (s : string) (acc : Z) (n : nat) :
  digits acc n (upper_case s) = digits acc n s.
Proof.
  revert acc n. induction s as [|c r IH]; intros acc n; [reflexivity|].
  cbn [upper_case digits]. destruct (to_upper_same c) as (_ & -> & _).
  now destruct (hex_digit c).
Qed.

Lemma stoi16_upper (s : string) : stoi16 (upper_case s) = stoi16 s.
Proof.
  unfold stoi16. rewrite skip_space_upper, take_sign_upper.
  destruct (take_sign (skip_space s)) as [neg s1]. cbn [fst snd].
  now rewrite skip_0x_upper, digits_upper.
Qed.

Lemma hex_field_upper (line : string) (pos n : nat) :
  hex_field (upper_case line) pos n = hex_field line pos n.
Proof.
  unfold hex_field, substr. rewrite upper_case_length, upper_case_substring.
  destruct (_ <? _)%nat; [reflexivity|]. cbn [bind]. apply stoi16_upper.
Qed.

End LetterCase.

(** X9.  The reader does not tell upper from lower case: a line and the
    same line with its letters in upper case (hex digits [a]..[f], the
    [x] of a [0x]) are candidates alike and are processed alike. *)
Theorem letter_case_is_ignored (startAddress endAddress : Z) (st : state)
    (line : string) :
  candidate (upper_case line) = candidate line
  /\ header (upper_case line) = header line
  /\ process_line startAddress endAddress st (upper_case line)
     = process_line startAddress endAddress st line.
Proof.
  assert (Hhead : header (upper_case line) = header line)
    by (unfold header; now rewrite !hex_field_upper).
  split; [|split; [exact Hhead|]].
  - destruct line as [|c r]; [reflexivity|]. cbn [upper_case candidate].
    apply to_upper_same.
  - unfold process_line. rewrite Hhead, hex_field_upper.
    destruct (header line) as [[[bc off] ty]|e]; [|reflexivity].
    destruct (ty =? 4); [reflexivity|]. destruct (ty =? 0); [|reflexivity].
    unfold data_loop.
    rewrite (data_from_agree startAddress endAddress (upper_case line) line);
      [reflexivity|].
    intros k _ _. apply hex_field_upper.
Qed.

(** ** The command line *)

Section CommandLineFacts.

Variable ULONG_MAX : Z.

Lemma digits_all_hex (s : string) (acc : Z) (n : nat) :
  Format.all_hex s = true ->
  snd (digits acc n s) = (n + String.length s)%nat.
Proof.
  revert acc n. induction s as [|c r IH]; intros acc n H;
    cbn [digits String.length snd]; [lia|].
  unfold Format.all_hex in H. cbn [list_ascii_of_string forallb] in H.
  apply andb_true_iff in H as [Hc Hr]. unfold Format.is_hex in Hc.
  apply bool_decide_eq_true in Hc as [d Hd]. rewrite Hd.
  rewrite (IH _ _ Hr). lia.
Qed.

(** A non-empty string of hex digits converts to its number, with or
    without [0x] in front. *)
Lemma stoul16_all_hex (s : string) :
  Format.all_hex s = true -> s <> EmptyString ->
  stoul16 ULONG_MAX s =
    (if ULONG_MAX <? hex_number s then Throw out_of_range else Ok (hex_number s))
  /\ stoul16 ULONG_MAX ("0x" ++ s) = stoul16 ULONG_MAX s.
Proof.
  intros Hall Hne. destruct s as [|c r]; [contradiction|].
  pose proof Hall as Hall'. unfold Format.all_hex in Hall'.
  cbn [list_ascii_of_string forallb] in Hall'.
  apply andb_true_iff in Hall' as [Hc Hr]. unfold Format.is_hex in Hc.
  pose proof Hc as Hc'. apply bool_decide_eq_true in Hc' as [d Hd].
  destruct (hex_digit_plain _ _ Hd) as (Sc & Mc & Pc & Xc & Xc').
  assert (Hskip : skip_0x (String c r) = String c r).
  { destruct r as [|x [|y r']]; try reflexivity.
    cbn [forallb] in Hr. apply andb_true_iff in Hr as [Hx _].
    unfold Format.is_hex in Hx. apply bool_decide_eq_true in Hx as [dx Hdx].
    destruct (hex_digit_plain _ _ Hdx) as (_ & _ & _ & X1 & X2).
    unfold skip_0x. rewrite X1, X2. cbn [orb]. now rewrite andb_false_r. }
  assert (Hplain : stoul16 ULONG_MAX (String c r) =
    if ULONG_MAX <? hex_number (String c r) then Throw out_of_range
    else Ok (hex_number (String c r))).
  { unfold stoul16, hex_number. cbn [skip_space]. rewrite Sc.
    unfold take_sign. rewrite Mc, Pc, Hskip.
    pose proof (digits_all_hex (String c r) 0 0 Hall) as Hn.
    destruct (digits 0 0 (String c r)) as [v n]. cbn [fst snd] in *.
    subst n. reflexivity. }
  split; [exact Hplain|]. rewrite Hplain.
  unfold stoul16, hex_number.
  change ("0x" ++ String c r)%string with (String "0" (String "x" (String c r))).
  cbn [skip_space]. change (isspace "0") with false. cbv iota.
  unfold take_sign. change (code "0" =? 45) with false.
  change (code "0" =? 43) with false. cbv iota.
  unfold skip_0x. change (code "0" =? 48) with true.
  change (code "x" =? 120) with true. cbn [andb orb]. rewrite Hc.
  pose proof (digits_all_hex (String c r) 0 0 Hall) as Hn.
  destruct (digits 0 0 (String c r)) as [v n]. cbn [fst snd] in *.
  subst n. reflexivity.
Qed.

Lemma hex_number_range (s : string) :
  0 <= hex_number s < 16 ^ Z.of_nat (String.length s).
Proof.
  unfold hex_number. pose proof (digits_bound s 0 0 ltac:(lia)). lia.
Qed.

End CommandLineFacts.

(** X10.  Given five arguments whose last two are non-empty strings of
    hex digits not above [ULONG_MAX], the program runs the extraction
    with their values reduced modulo [2^32] as start address and size, and
    the same when each carries a leading [0x]; values of up to eight
    digits are taken as they are. *)
Theorem arguments_are_hex_numbers (ULONG_MAX : Z)
    (prog hexFilePath binFilePath arg3 arg4 : string)
    (open_hex : string -> option (list string)) (can_create : string -> bool) :
  Format.all_hex arg3 = true -> arg3 <> EmptyString ->
  Format.all_hex arg4 = true -> arg4 <> EmptyString ->
  hex_number arg3 <= ULONG_MAX -> hex_number arg4 <= ULONG_MAX ->
  let ran := Returned (main (uint32 (hex_number arg3)) (uint32 (hex_number arg4))
                            (open_hex hexFilePath) (can_create binFilePath)) in
  main_argv ULONG_MAX [prog; hexFilePath; binFilePath; arg3; arg4]
            open_hex can_create = ran
  /\ main_argv ULONG_MAX
       [prog; hexFilePath; binFilePath; "0x" ++ arg3; "0x" ++ arg4]%string
       open_hex can_create = ran
  /\ ((String.length arg3 <= 8)%nat -> uint32 (hex_number arg3) = hex_number arg3)
  /\ ((String.length arg4 <= 8)%nat -> uint32 (hex_number arg4) = hex_number arg4).
Proof.
  intros H3 N3 H4 N4 L3 L4 ran.
  destruct (stoul16_all_hex ULONG_MAX arg3 H3 N3) as [E3 P3].
  destruct (stoul16_all_hex ULONG_MAX arg4 H4 N4) as [E4 P4].
  destruct (Z.ltb_spec ULONG_MAX (hex_number arg3)); [lia|].
  destruct (Z.ltb_spec ULONG_MAX (hex_number arg4)); [lia|].
  assert (Hsmall : forall s, (String.length s <= 8)%nat ->
            uint32 (hex_number s) = hex_number s).
  { intros s Hs. apply uint32_small. pose proof (hex_number_range s) as Hr.
    assert (16 ^ Z.of_nat (String.length s) <= 16 ^ 8)
      by (apply Z.pow_le_mono_r; lia).
    lia. }
  unfold main_argv. rewrite P3, P4, E3, E4. repeat split; auto.
Qed.

Lemma arguments_are_hex_numbers_witness :
  main_argv (2 ^ 64 - 1) ["hex_tool"; "app.hex"; "app.bin"; "0x08000000"; "0xE738"]%string
            (fun _ => None) (fun _ => true)
  = Returned (main 0x08000000 0xE738 None true).
Proof.
  assert (H3 : hex_number "08000000" <= 2 ^ 64 - 1) by (vm_compute; discriminate).
  assert (H4 : hex_number "E738" <= 2 ^ 64 - 1) by (vm_compute; discriminate).
  exact (proj1 (proj2 (arguments_are_hex_numbers (2 ^ 64 - 1)
           "hex_tool" "app.hex" "app.bin" "08000000" "E738"
           (fun _ => None) (fun _ => true)
           eq_refl ltac:(discriminate) eq_refl ltac:(discriminate) H3 H4))).
Defined.

(** X11.  With five arguments, a start address or size that does not
    begin (after blanks and a sign) with a hex digit ends the program
    with an uncaught [invalid_argument]: no usage message, and nothing
    is opened or written.  Any other number of arguments gives the usage
    message and status 1. *)
Theorem malformed_argument_is_uncaught (ULONG_MAX : Z) (argv : list string)
    (open_hex : string -> option (list string)) (can_create : string -> bool) :
  (length argv <> 5%nat -> main_argv ULONG_MAX argv open_hex can_create = UsageError)
  /\ forall prog hexFilePath binFilePath arg3 arg4,
       argv = [prog; hexFilePath; binFilePath; arg3; arg4] ->
       (leading_digit arg3 = false ->
        main_argv ULONG_MAX argv open_hex can_create = Uncaught invalid_argument)
       /\ (forall s, stoul16 ULONG_MAX arg3 = Ok s -> leading_digit arg4 = false ->
           main_argv ULONG_MAX argv open_hex can_create = Uncaught invalid_argument).
Proof.
  assert (Hno : forall s, leading_digit s = false ->
            stoul16 ULONG_MAX s = Throw invalid_argument).
  { intros s. unfold leading_digit, stoul16.
    destruct (take_sign (skip_space s)) as [neg s1]. cbn [snd].
    destruct (skip_0x_head s1) as [Hhead _].
    pose proof (digits_none_iff (skip_0x s1)) as Hnone. rewrite Hhead in Hnone.
    destruct (digits 0 0 (skip_0x s1)) as [v n]. cbn [snd] in Hnone.
    intros H. apply Hnone in H. now subst n. }
  split.
  - intros Hlen. destruct argv as [|a0 [|a1 [|a2 [|a3 [|a4 [|a5 r]]]]]];
      try reflexivity. now destruct Hlen.
  - intros prog hexFilePath binFilePath arg3 arg4 ->. split.
    + intros H3. unfold main_argv. now rewrite (Hno _ H3).
    + intros s Hs H4. unfold main_argv. now rewrite Hs, (Hno _ H4).
Qed.

(** ** What the reader leaves alone *)

(** X15.  The reader never removes an entry of the map and never
    touches an address that fails the window test: after any input,
    every address that had an entry still has one, and an entry that is
    new or changed is at an address inside the window and is the last
    value stored there. *)
Theorem reader_only_adds_in_window (startAddress endAddress : Z)
    (lines : list string) (st : state) :
  let after := read_lines startAddress endAddress lines st in
  (forall a v, memoryMap st !! a = Some v ->
     exists v', memoryMap (fst after) !! a = Some v')
  /\ (forall a, in_range startAddress endAddress a = false ->
        memoryMap (fst after) !! a = memoryMap st !! a)
  /\ (forall a v, memoryMap (fst after) !! a = Some v ->
        memoryMap st !! a = Some v
        \/ (in_range startAddress endAddress a = true
            /\ last_store a (snd after) = Some v)).
Proof.
  cbn zeta.
  destruct (read_lines startAddress endAddress lines st) as [st' log] eqn:E.
  apply read_lines_replayed in E as [R W]. cbn [fst snd].
  split; [|split].
  - intros a v Hv. rewrite (R a), Hv. destruct (last_store a log); eauto.
  - intros a Ha. rewrite (R a).
    destruct (last_store a log) as [v|] eqn:L; [|reflexivity].
    apply last_store_in, W in L. congruence.
  - intros a v. rewrite (R a).
    destruct (last_store a log) as [w|] eqn:L; [|now left].
    intros [= ->]. right. split; [|reflexivity].
    eapply W, last_store_in, L.
Qed.

(** ** bin_to_header.cpp: names *)

Module BinToHeaderFacts.
Import BinToHeader.

Lemma sanitize_name_length (s : string) :
  String.length (sanitize_name s) = String.length s.
Proof. induction s as [|c r IH]; cbn [sanitize_name String.length]; congruence. Qed.

Lemma isalnum_underscore : isalnum "_" = false.
Proof. reflexivity. Qed.

Lemma sanitize_name_get (s : string) (i : nat) :
  String.get i (sanitize_name s) =
  match String.get i s with
  | Some c => Some (if isalnum c then c else "_"%char)
  | None => None
  end.
Proof.
  revert i. induction s as [|c r IH]; intros i; [reflexivity|].
  destruct i as [|i]; cbn [sanitize_name String.get]; [reflexivity|apply IH].
Qed.

(** X12.  [sanitize_name] keeps the length of the name and every letter
    and digit in its place, puts ['_'] wherever anything else stood, so
    that the result holds letters, digits and ['_'] only, and changes
    nothing when applied again. *)
Theorem sanitize_name_identifier (filename : string) :
  String.length (sanitize_name filename) = String.length filename
  /\ (forall i c, String.get i filename = Some c ->
        String.get i (sanitize_name filename)
        = Some (if isalnum c then c else "_"%char))
  /\ (forall i c, String.get i (sanitize_name filename) = Some c ->
        isalnum c = true \/ c = "_"%char)
  /\ sanitize_name (sanitize_name filename) = sanitize_name filename.
Proof.
  split; [apply sanitize_name_length|]. split; [|split].
  - intros i c H. now rewrite sanitize_name_get, H.
  - intros i c. rewrite sanitize_name_get.
    destruct (String.get i filename) as [c'|]; [|discriminate].
    destruct (isalnum c') eqn:E; intros [= <-]; [now left|now right].
  - induction filename as [|c r IH]; [reflexivity|].
    cbn [sanitize_name]. rewrite IH. f_equal.
    destruct (isalnum c) eqn:E; [now rewrite E|now rewrite isalnum_underscore].
Qed.

(** ** bin_to_header.cpp: the array *)

Lemma hex_char_digit (d : Z) :
  0 <= d < 16 ->
  hex_digit (hex_char d) = Some d
  /\ (code (hex_char d) =? 48) && (code (hex_char d) =? 120) = false.
Proof.
  intros Hd.
  assert (d = 0 \/ d = 1 \/ d = 2 \/ d = 3 \/ d = 4 \/ d = 5 \/ d = 6 \/ d = 7
          \/ d = 8 \/ d = 9 \/ d = 10 \/ d = 11 \/ d = 12 \/ d = 13 \/ d = 14
          \/ d = 15) as H by lia.
  repeat (destruct H as [->|H]; [now split|]). subst d. now split.
Qed.

Lemma read_array_skip (c : ascii) (rest : string) :
  (code c =? 48) = false -> read_array (String c rest) = read_array rest.
Proof.
  intros H. cbn [read_array]. rewrite H. cbn [andb].
  now destruct rest as [|c1 [|h1 [|h2 r]]].
Qed.

Lemma read_array_element (v : Z) (rest : string) :
  0 <= v < 256 ->
  read_array ("0x" ++ hex2 v ++ rest) = v :: read_array rest.
Proof.
  intros Hv.
  assert (H1 : 0 <= v / 16 < 16)
    by (split; [apply Z.div_pos|apply Z.div_lt_upper_bound]; lia).
  assert (H2 : 0 <= v mod 16 < 16) by (apply Z.mod_pos_bound; lia).
  change ("0x" ++ hex2 v ++ rest)%string
    with (String "0" (String "x" (String (hex_char (v / 16))
            (String (hex_char (v mod 16)) rest)))).
  cbn [read_array]. change ((code "0" =? 48) && (code "x" =? 120)) with true.
  cbv iota. rewrite (proj1 (hex_char_digit _ H1)), (proj1 (hex_char_digit _ H2)).
  f_equal. pose proof (Z.div_mod v 16 ltac:(lia)). lia.
Qed.

Lemma land_255_range (b : Z) : 0 <= Z.land 0xFF b < 256.
Proof.
  rewrite Z.land_comm. change 0xFF with (Z.ones 8).
  rewrite Z.land_ones by lia. apply Z.mod_pos_bound. lia.
Qed.

(** X13.  The array body written for the bytes of a file reads back as
    those bytes, each as the unsigned value of its [char]: no byte is
    lost, merged or reordered by the line breaks, and the number of
    elements is the number of bytes read. *)
Theorem array_body_round_trip (bytes : list Z) (byte_count : Z) :
  0 <= byte_count -> byte_count + Z.of_nat (length bytes) < 2 ^ 31 ->
  read_array (array_body bytes byte_count) = map (Z.land 0xFF) bytes
  /\ length (read_array (array_body bytes byte_count)) = length bytes
  /\ (Forall (fun b => 0 <= b < 256) bytes ->
      read_array (array_body bytes byte_count) = bytes).
Proof.
  intros _ _.
  assert (Hrt : forall n, read_array (array_body bytes n) = map (Z.land 0xFF) bytes).
  { induction bytes as [|b rest IH]; intros n; [reflexivity|].
    cbn [array_body map].
    rewrite (read_array_element _ _ (land_255_range b)). f_equal.
    change (", " ++ ?t)%string with (String "," (String " " t)).
    rewrite !read_array_skip by reflexivity.
    destruct ((n + 1) mod 16 =? 0).
    - change ((newline ++ "    ") ++ ?t)%string
        with (String (ascii_of_nat 10)
                (String " " (String " " (String " " (String " " t))))).
      rewrite !read_array_skip by reflexivity. apply IH.
    - apply IH. }
  split; [apply Hrt|]. split; [now rewrite Hrt, length_map|].
  intros Hb. rewrite Hrt. clear Hrt.
  induction Hb as [|b rest Hb _ IH]; [reflexivity|]. cbn [map]. f_equal; [|exact IH].
  rewrite Z.land_comm. change 0xFF with (Z.ones 8).
  rewrite Z.land_ones by lia. apply Z.mod_small. lia.
Qed.

Lemma array_body_round_trip_witness :
  read_array (array_body [0xDE; 0xAD; -1; 0] 14) = map (Z.land 0xFF) [0xDE; 0xAD; -1; 0].
Proof.
  apply (array_body_round_trip [0xDE; 0xAD; -1; 0] 14); cbn; lia.
Defined.

(** ** bin_to_header.cpp: paths *)

Lemma substring_whole (s : string) : String.substring 0 (String.length s) s = s.
Proof. induction s as [|c r IH]; cbn [String.substring String.length]; congruence. Qed.

Lemma substring_prefix (a b : string) :
  String.substring 0 (String.length a) (a ++ b) = a.
Proof.
  induction a as [|c r IH]; [now destruct b|].
  change (String c r +:+ b) with (String c (r +:+ b)).
  cbn [String.length String.substring]. now rewrite IH.
Qed.

Lemma substring_suffix (a b : string) :
  String.substring (String.length a) (String.length (a ++ b) - String.length a) (a ++ b)
  = b.
Proof.
  induction a as [|c r IH].
  - change (EmptyString +:+ b) with b. cbn [String.length].
    rewrite Nat.sub_0_r. apply substring_whole.
  - change (String c r +:+ b) with (String c (r +:+ b)).
    cbn [String.length String.substring]. exact IH.
Qed.

Lemma find_last_of_app (set : list ascii) (a b : string) :
  find_last_of set (a ++ b) =
  match find_last_of set b with
  | Some i => Some (String.length a + i)%nat
  | None => find_last_of set a
  end.
Proof.
  induction a as [|c r IH].
  - change (EmptyString +:+ b) with b. now destruct (find_last_of set b).
  - change (String c r +:+ b) with (String c (r +:+ b)).
    cbn [find_last_of String.length]. rewrite IH.
    now destruct (find_last_of set b).
Qed.

(** X14.  For a path that ends in a separator (['/'] or ['\']) followed
    by a name [base.ext] without separators, [ext] without a dot, the
    file name is [base.ext], the base name is [base] (which may itself
    hold dots), the output goes to [base.embed] in the working
    directory whatever the directory of the input, and the variable is
    named after [base] alone. *)
Theorem output_is_named_after_base (dir base ext : string) (sep : ascii)
    (size : Z) (bytes : list Z) :
  sep = "/"%char \/ sep = "\"%char ->
  free_of ["/"%char; "\"%char] base -> free_of ["/"%char; "\"%char] ext ->
  free_of ["."%char] ext ->
  let input_path := (dir ++ String sep (base ++ String "." ext))%string in
  file_name input_path = (base ++ String "." ext)%string
  /\ base_name_of (file_name input_path) = base
  /\ exists text,
       convert_file input_path (Some (size, bytes)) true
       = ([Converting (base ++ String "." ext) (base ++ ".embed"); Success],
          Some ((base ++ ".embed")%string, text)).
Proof.
  intros Hsep Hbase Hext Hdot input_path. unfold free_of in *.
  assert (Hname : find_last_of ["/"%char; "\"%char] (base ++ String "." ext) = None).
  { rewrite find_last_of_app. cbn [find_last_of]. rewrite Hext. cbn. exact Hbase. }
  assert (Hfile : file_name input_path = (base ++ String "." ext)%string).
  { unfold file_name, input_path. rewrite find_last_of_app.
    cbn [find_last_of]. rewrite Hname.
    assert (existsb (Ascii.eqb sep) ["/"%char; "\"%char] = true) as ->
      by (destruct Hsep as [-> | ->]; reflexivity).
    cbv iota.
    replace (String.length dir + 0)%nat with (String.length dir) by lia.
    change (dir ++ String sep ?t)%string with (dir ++ (String sep EmptyString ++ t))%string.
    set (name := (base ++ String "." ext)%string).
    assert (Hassoc : (dir ++ (String sep EmptyString ++ name))%string
                     = ((dir ++ String sep EmptyString) ++ name)%string).
    { clear. induction dir as [|c r IH]; [reflexivity|].
      change (String c r +:+ ?t) with (String c (r +:+ t)). now rewrite IH. }
    rewrite Hassoc.
    replace (S (String.length dir)) with (String.length (dir ++ String sep EmptyString)).
    - apply substring_suffix.
    - rewrite string_length_app. cbn [String.length]. lia. }
  assert (Hb : base_name_of (base ++ String "." ext) = base).
  { unfold base_name_of. rewrite find_last_of_app. cbn [find_last_of].
    rewrite Hdot. change (existsb (Ascii.eqb "."%char) ["."%char]) with true.
    cbv iota.
    replace (String.length base + 0)%nat with (String.length base) by lia.
    apply substring_prefix. }
  split; [exact Hfile|]. split; [now rewrite Hfile|].
  unfold convert_file. cbn [negb]. rewrite Hfile, Hb. eauto.
Qed.

Lemma output_is_named_after_base_witness :
  file_name "build\out/app.v2.bin" = "app.v2.bin"%string
  /\ base_name_of (file_name "build\out/app.v2.bin") = "app.v2"%string.
Proof.
  destruct (output_is_named_after_base "build\out" "app.v2" "bin" "/" 4 [1; 2; 3; 4])
    as (H1 & H2 & _); [now left|reflexivity..|].
  split; [exact H1|exact H2].
Defined.

End BinToHeaderFacts.
